(** * Voiceover Studio: the controllers and derived metrics of
      [VoiceoverStudio] (src/unnamed/part_000), embedded in Rocq.

    The component is a React function component.  Its pure helpers
    ([formattedDuration], [wordCount], the "Est. secs" expression) become
    Rocq functions; its event handlers ([speak], [cancelSpeech],
    [toggleRecording], [recorder.onstop], [deleteRecording]) become
    functions on an explicit component state that also return the calls
    they make to the platform (object-URL allocator, speech queue,
    console).  The platform built-ins the source calls ([String.trim],
    [String.split] with [/\s+/], [padStart], [Math.round], [toFixed],
    IEEE double division, React's effect cleanup) are modelled in the
    [JS] and [React] parts from their language definitions. *)

From Stdlib Require Import ZArith NArith List Bool String Ascii Lia.
From Stdlib Require Import DecimalString DecimalN DecimalZ.
From Stdlib Require Import Floats.SpecFloat.
Import ListNotations.

Open Scope Z_scope.

(* ================================================================== *)
(** ** JavaScript built-ins used by the component                      *)
(* ================================================================== *)

Module JS.

(** *** Strings of UTF-16 code units

    A JavaScript string is a sequence of 16-bit code units.  The script
    text is kept in that form because [trim] and [\s] look at code units
    outside ASCII (U+00A0, U+2028, ...). *)

Definition codeunit := N.
Definition jsstring := list codeunit.

(** Code units of an ASCII literal. *)
Fixpoint of_ascii_string (s : string) : jsstring :=
  match s with
  | EmptyString => []
  | String c rest => N_of_ascii c :: of_ascii_string rest
  end.

(** ECMAScript WhiteSpace and LineTerminator code points; [trim] strips
    exactly these and the regular expression class [\s] matches exactly
    these. *)
Definition isWhiteSpace (c : codeunit) : bool :=
  ((9 <=? c) && (c <=? 13)                 (* TAB LF VT FF CR *)
   || (c =? 32)                            (* SPACE *)
   || (c =? 160)                           (* NO-BREAK SPACE *)
   || (c =? 5760)                          (* U+1680 *)
   || ((8192 <=? c) && (c <=? 8202))       (* U+2000 .. U+200A *)
   || (c =? 8232) || (c =? 8233)           (* U+2028 U+2029 *)
   || (c =? 8239) || (c =? 8287)           (* U+202F U+205F *)
   || (c =? 12288)                         (* U+3000 *)
   || (c =? 65279))%N.                     (* U+FEFF *)

Fixpoint trimStart (s : jsstring) : jsstring :=
  match s with
  | [] => []
  | c :: rest => if isWhiteSpace c then trimStart rest else s
  end.

Definition trimEnd (s : jsstring) : jsstring := rev (trimStart (rev s)).

(** [String.prototype.trim]. *)
Definition trim (s : jsstring) : jsstring := trimEnd (trimStart s).

(** Truthiness of a string: the empty string is the only falsy one. *)
Definition truthy_string (s : jsstring) : bool :=
  match s with [] => false | _ :: _ => true end.

(** [String.prototype.split] with the separator [/\s+/] and no limit.

    The specification scans the string from left to right, trying the
    separator at each position [q]; [piece] holds (reversed) the code
    units since the end of the previous match.  A match of [\s+] is
    greedy, so after the first white-space unit of a run the following
    ones belong to the same match: [inMatch] records that.  At the end
    the remaining piece is pushed, also when it is empty. *)
Fixpoint split_ws_from (inMatch : bool) (piece : jsstring) (s : jsstring)
  : list jsstring :=
  match s with
  | [] => [rev piece]
  | c :: rest =>
      if isWhiteSpace c then
        if inMatch then split_ws_from true [] rest
        else rev piece :: split_ws_from true [] rest
      else split_ws_from false (c :: piece) rest
  end.

Definition split_ws (s : jsstring) : list jsstring :=
  split_ws_from false [] s.

(** *** Numbers that are integers

    Timestamps ([Date.now()]), durations and lengths are integral
    doubles far below 2^53; they are modelled as [Z], where the
    arithmetic the source performs on them is exact. *)

(** [Number::toString] of an integer (decimal digits, a leading minus
    sign for negatives; the form JavaScript prints below 1e21). *)
Definition Number_toString (z : Z) : string :=
  NilZero.string_of_int (Z.to_int z).

Definition Math_max (a b : Z) : Z := Z.max a b.

(** [Math.round (n / d)] for integers [n] and [d > 0]: the integer
    nearest to the quotient, a tie going up ([floor (n/d + 1/2)]).  For
    integral [n] below 2^53 and [d = 1000] the double [n / d] is on the
    same side of every half-integer as the exact quotient, so this is
    what the source computes. *)
Definition Math_round_div (n d : Z) : Z := (2 * n + d) / (2 * d).

(** [Math.floor (n / d)] for integers. *)
Definition Math_floor_div (n d : Z) : Z := n / d.

(** The remainder operator [%]: sign of the dividend. *)
Definition rem (n d : Z) : Z := Z.rem n d.

(** [fill] repeated and cut to [n] characters, as [padStart] builds its
    filler. *)
Fixpoint filler (fill cur : string) (n : nat) : string :=
  match n with
  | O => EmptyString
  | S n' =>
      match cur with
      | String c cur' => String c (filler fill cur' n')
      | EmptyString =>
          match fill with
          | String c cur' => String c (filler fill cur' n')
          | EmptyString => EmptyString
          end
      end
  end.

(** [String.prototype.padStart (maxLength, fill)]. *)
Definition padStart (maxLength : nat) (fill : string) (s : string) : string :=
  if (maxLength <=? String.length s)%nat then s
  else match fill with
       | EmptyString => s
       | _ => filler fill fill (maxLength - String.length s) ++ s
       end.

(** *** Numbers that are doubles

    The rate, the pitch and the quotient [wordCount / rate] are IEEE 754
    binary64 values; they are the standard library's [spec_float] at
    precision 53. *)

Definition number := spec_float.
Definition prec : Z := 53.
Definition emax : Z := 1024.

(** The double of an integer. *)
Definition number_of_Z (z : Z) : number := binary_normalize prec emax z 0 false.

(** The operator [/]. *)
Definition div (x y : number) : number := SFdiv prec emax x y.

(** Truthiness of a number: [+0], [-0] and [NaN] are falsy. *)
Definition truthy_number (x : number) : bool :=
  match x with
  | S754_zero _ | S754_nan => false
  | S754_infinity _ | S754_finite _ _ _ => true
  end.

(** The operator [||] on numbers. *)
Definition or_else (x y : number) : number := if truthy_number x then x else y.

(** What [toFixed] returns: the characters it builds itself, or, for a
    finite magnitude of 1e21 and more, [Number::toString] of the value
    (exponent notation, which is left symbolic). *)
Inductive rendered :=
| Text (s : string)
| ViaToString (x : number).

(** Whether [m * 2^e >= 10^21]. *)
Definition at_least_1e21 (m : positive) (e : Z) : bool :=
  if 0 <=? e then 10 ^ 21 <=? Z.pos m * 2 ^ e
  else 10 ^ 21 * 2 ^ (- e) <=? Z.pos m.

(** The integer [n] for which [n / 10^f - m * 2^e] is closest to zero,
    the larger one of two. *)
Definition nearest_scaled (f : nat) (m : positive) (e : Z) : Z :=
  if 0 <=? e then Z.pos m * 2 ^ e * 10 ^ Z.of_nat f
  else Math_round_div (Z.pos m * 10 ^ Z.of_nat f) (2 ^ (- e)).

Fixpoint zeros (n : nat) : string :=
  match n with O => EmptyString | S n' => String "0" (zeros n') end.

(** The digits of [n] with a point before the last [f] of them, zeros
    added in front so that one digit at least precedes the point. *)
Definition point_digits (f : nat) (n : Z) : string :=
  let m := Number_toString n in
  match f with
  | O => m
  | S _ =>
      let m' := if (String.length m <=? f)%nat
                then (zeros (f + 1 - String.length m) ++ m)%string else m in
      let k := String.length m' in
      (substring 0 (k - f) m' ++ "." ++ substring (k - f) f m')%string
  end.

(** [Number.prototype.toFixed (f)] for [0 <= f <= 100]. *)
Definition toFixed (f : nat) (x : number) : rendered :=
  match x with
  | S754_nan => Text "NaN"
  | S754_infinity s => Text (if s then "-Infinity" else "Infinity")
  | S754_zero _ => Text (point_digits f 0)
  | S754_finite s m e =>
      if at_least_1e21 m e then ViaToString x
      else Text ((if s then "-" else EmptyString)
                 ++ point_digits f (nearest_scaled f m e))%string
  end.

End JS.

(* ================================================================== *)
(** ** Derived UI metrics                                              *)
(* ================================================================== *)

Module Metrics.
Import JS.

(** [formattedDuration] (source lines 198-203), for the durations the
    component passes: integers of magnitude below 2^53, on which the
    arithmetic of the source is exact. *)
Definition formattedDuration (ms : Z) : string :=
  let totalSeconds := Math_max 0 (Math_round_div ms 1000) in
  let minutes := Math_floor_div totalSeconds 60 in
  let seconds := rem totalSeconds 60 in
  (Number_toString minutes ++ ":" ++ padStart 2 "0" (Number_toString seconds))%string.

(** [wordCount] (source lines 215-220), on the script text. *)
Definition wordCount (script : jsstring) : nat :=
  if negb (truthy_string (trim script)) then 0%nat
  else List.length (split_ws (trim script)).

(** The "Est. secs" figure (source line 271):
    [(wordCount / rate || 0).toFixed(1)]. *)
Definition estimatedSeconds (script : jsstring) (rate : number) : rendered :=
  toFixed 1 (or_else (div (number_of_Z (Z.of_nat (wordCount script))) rate)
                     (number_of_Z 0)).

End Metrics.

(* ================================================================== *)
(** ** The component: state, platform calls and event handlers         *)
(* ================================================================== *)

Module Studio.
Import JS.

(** [type Recording] (source lines 7-12).  Identifiers and object URLs
    are ASCII strings. *)
Record Recording := mkRecording {
  id : string;
  url : string;
  createdAt : Z;
  duration : Z
}.

(** A [SpeechSynthesisVoice], by the two fields the source reads. *)
Record Voice := mkVoice { name : jsstring; lang : jsstring }.

(** A [Blob], by its bytes. *)
Definition Blob := list N.

(** A [SpeechSynthesisUtterance] as [speak] configures it. *)
Record Utterance := mkUtterance {
  text : jsstring;
  u_pitch : number;
  u_rate : number;
  u_voice : option Voice
}.

(** Object identities handed out by the platform. *)
Definition RecorderId := N.
Definition UtteranceId := N.

(** The [useState] cells and [useRef] boxes of the component (source
    lines 63-76) that the controllers read or write. *)
Record State := mkState {
  script : jsstring;
  voices : list Voice;
  selectedVoice : jsstring;
  pitch : number;
  rate : number;
  isSpeaking : bool;
  isRecording : bool;
  recordings : list Recording;
  recorderRef : option RecorderId;
  recordStartRef : option Z;
  audioChunksRef : list Blob;
  speechSupported : bool;
  recordingSupported : bool
}.

Definition set_script (v : jsstring) (s : State) : State :=
  mkState v (voices s) (selectedVoice s) (pitch s) (rate s) (isSpeaking s)
    (isRecording s) (recordings s) (recorderRef s) (recordStartRef s)
    (audioChunksRef s) (speechSupported s) (recordingSupported s).

Definition setIsSpeaking (v : bool) (s : State) : State :=
  mkState (script s) (voices s) (selectedVoice s) (pitch s) (rate s) v
    (isRecording s) (recordings s) (recorderRef s) (recordStartRef s)
    (audioChunksRef s) (speechSupported s) (recordingSupported s).

Definition setIsRecording (v : bool) (s : State) : State :=
  mkState (script s) (voices s) (selectedVoice s) (pitch s) (rate s)
    (isSpeaking s) v (recordings s) (recorderRef s) (recordStartRef s)
    (audioChunksRef s) (speechSupported s) (recordingSupported s).

(** [setRecordings] with an updater function. *)
Definition setRecordings (f : list Recording -> list Recording) (s : State)
  : State :=
  mkState (script s) (voices s) (selectedVoice s) (pitch s) (rate s)
    (isSpeaking s) (isRecording s) (f (recordings s)) (recorderRef s)
    (recordStartRef s) (audioChunksRef s) (speechSupported s)
    (recordingSupported s).

Definition set_recorderRef (v : option RecorderId) (s : State) : State :=
  mkState (script s) (voices s) (selectedVoice s) (pitch s) (rate s)
    (isSpeaking s) (isRecording s) (recordings s) v (recordStartRef s)
    (audioChunksRef s) (speechSupported s) (recordingSupported s).

Definition set_recordStartRef (v : option Z) (s : State) : State :=
  mkState (script s) (voices s) (selectedVoice s) (pitch s) (rate s)
    (isSpeaking s) (isRecording s) (recordings s) (recorderRef s) v
    (audioChunksRef s) (speechSupported s) (recordingSupported s).

Definition set_audioChunksRef (v : list Blob) (s : State) : State :=
  mkState (script s) (voices s) (selectedVoice s) (pitch s) (rate s)
    (isSpeaking s) (isRecording s) (recordings s) (recorderRef s)
    (recordStartRef s) v (speechSupported s) (recordingSupported s).

(** Calls a handler makes to the platform, in the order it makes them. *)
Inductive Call :=
| SynthCancel                                   (* speechSynthesis.cancel() *)
| SynthSpeak (u : Utterance)                    (* speechSynthesis.speak(u) *)
| RecorderStart (r : RecorderId)                (* recorder.start() *)
| RecorderStop (r : RecorderId)                 (* recorder.stop() *)
| TracksStop (r : RecorderId)                   (* stream tracks, each stop() *)
| CreateObjectURL (b : Blob) (u : string)       (* URL.createObjectURL(b), returning u *)
| RevokeObjectURL (u : string)                  (* URL.revokeObjectURL(u) *)
| ConsoleError (msg : string) (err : string).   (* console.error(msg, err) *)

(** *** Speech preview *)

Fixpoint jsstring_eqb (a b : jsstring) : bool :=
  match a, b with
  | [], [] => true
  | x :: a', y :: b' => (x =? y)%N && jsstring_eqb a' b'
  | _, _ => false
  end.

(** [speak] (source lines 117-138).  The three listeners it installs on
    the utterance are [utterance_onstart], [utterance_onend] and
    [utterance_onerror] below. *)
Definition speak (st : State) : State * list Call :=
  if negb (speechSupported st) || negb (truthy_string (trim (script st)))
  then (st, [])
  else
    let voice := find (fun v => jsstring_eqb (name v) (selectedVoice st))
                      (voices st) in
    let utterance := mkUtterance (script st) (pitch st) (rate st) voice in
    (st, [SynthCancel; SynthSpeak utterance]).

Definition utterance_onstart (st : State) : State := setIsSpeaking true st.
Definition utterance_onend (st : State) : State := setIsSpeaking false st.
Definition utterance_onerror (st : State) : State := setIsSpeaking false st.

(** [cancelSpeech] (source lines 140-143).  [SynthCancel] stands for
    [window.speechSynthesis?.cancel()]: where speech synthesis is absent
    the source calls nothing, and there is no queue for the call to
    empty. *)
Definition cancelSpeech (st : State) : State * list Call :=
  (setIsSpeaking false st, [SynthCancel]).

(** *** Recording booth *)

(** How an attempt to start a capture goes: where, if anywhere,
    [requestRecordingStream] throws. *)
Inductive Capture :=
| GetUserMediaRejected (err : string)   (* permission denied, no device *)
| MediaRecorderThrows (err : string)    (* the constructor throws *)
| StartThrows (r : RecorderId) (err : string)  (* recorder.start() throws *)
| Started (r : RecorderId) (now : Z).   (* all went well; Date.now() = now *)

(** Result of a function that may throw: the state and calls up to the
    return or to the throw. *)
Inductive Completion :=
| Returned (st : State) (calls : list Call)
| Thrown (err : string) (st : State) (calls : list Call).

(** [requestRecordingStream] (source lines 145-177). *)
Definition requestRecordingStream (c : Capture) (st : State) : Completion :=
  match c with
  | GetUserMediaRejected err => Thrown err st []
  | MediaRecorderThrows err => Thrown err st []
  | StartThrows r err =>
      Thrown err (set_audioChunksRef [] (set_recorderRef (Some r) st)) []
  | Started r now =>
      let st1 := set_audioChunksRef [] (set_recorderRef (Some r) st) in
      let st2 := set_recordStartRef (Some now) st1 in
      Returned (setIsRecording true st2) [RecorderStart r]
  end.

(** [recorder.ondataavailable] (source lines 151-155). *)
Definition recorder_ondataavailable (data : Blob) (st : State) : State :=
  if (0 <? List.length data)%nat
  then set_audioChunksRef (audioChunksRef st ++ [data]) st
  else st.

(** [recordStartRef.current ? now - recordStartRef.current : 0]: the
    reference is falsy when it is [null] and when it is the number 0. *)
Definition durationSince (start : option Z) (now : Z) : Z :=
  match start with
  | Some t0 => if t0 =? 0 then 0 else now - t0
  | None => 0
  end.

(** [recorder.onstop] (source lines 157-172).  [now1], [now2], [now3]
    are the three readings of [Date.now()], in the order of evaluation
    (duration, identifier, creation time); [u] is the URL that
    [URL.createObjectURL] returns. *)
Definition recorder_onstop (now1 now2 now3 : Z) (u : string) (st : State)
  : State * list Call :=
  let durationMs := durationSince (recordStartRef st) now1 in
  let blob := List.concat (audioChunksRef st) in
  let st1 :=
    setRecordings
      (fun prev => mkRecording (Number_toString now2) u now3 durationMs :: prev)
      st in
  (set_recordStartRef None (set_audioChunksRef [] st1),
   [CreateObjectURL blob u]).

(** [toggleRecording] (source lines 179-196).  The [await] of the start
    path is taken in one step: a second call made while the request for
    the microphone is still pending, which the source would treat as a
    second start, is outside this function. *)
Definition toggleRecording (c : Capture) (st : State) : State * list Call :=
  if negb (recordingSupported st) then (st, [])
  else if negb (isRecording st) then
    match requestRecordingStream c st with
    | Returned st' calls => (st', calls)
    | Thrown err st' calls =>
        (st', calls ++ [ConsoleError "Unable to access microphone" err])
    end
  else
    let calls :=
      match recorderRef st with
      | Some r => [RecorderStop r; TracksStop r]
      | None => []
      end in
    (setIsRecording false st, calls).

(** The updater that [deleteRecording] (source lines 228-236) passes to
    [setRecordings]: the new list and the calls made on the way. *)
Definition deleteRecording_updater (i : string) (prev : list Recording)
  : list Recording * list Call :=
  let target := find (fun item => String.eqb (id item) i) prev in
  let calls :=
    match target with
    | Some t => [RevokeObjectURL (url t)]
    | None => []
    end in
  (filter (fun item => negb (String.eqb (id item) i)) prev, calls).

Definition deleteRecording (i : string) (st : State) : State * list Call :=
  (setRecordings (fun prev => fst (deleteRecording_updater i prev)) st,
   snd (deleteRecording_updater i (recordings st))).

End Studio.

(* ================================================================== *)
(** ** The platform and React's scheduling of the handlers             *)
(* ================================================================== *)

Module React.
Import JS Studio.

(** What the browser keeps: the utterance queue of [speechSynthesis]
    (the utterance being spoken and those waiting), the next utterance
    identity, and logs of the object URLs created and revoked and of the
    console. *)
Record Platform := mkPlatform {
  queue : list (UtteranceId * Utterance);
  nextUtterance : UtteranceId;
  created : list string;
  revoked : list string;
  console : list (string * string);
  recorderCalls : list Call
}.

(** The effect of one call.  [cancel()] removes every utterance from the
    queue, [speak(u)] adds [u] at its end. *)
Definition apply_call (c : Call) (p : Platform) : Platform :=
  match c with
  | SynthCancel =>
      mkPlatform [] (nextUtterance p) (created p) (revoked p) (console p)
        (recorderCalls p)
  | SynthSpeak u =>
      mkPlatform (queue p ++ [(nextUtterance p, u)]) (N.succ (nextUtterance p))
        (created p) (revoked p) (console p) (recorderCalls p)
  | CreateObjectURL _ u =>
      mkPlatform (queue p) (nextUtterance p) (created p ++ [u]) (revoked p)
        (console p) (recorderCalls p)
  | RevokeObjectURL u =>
      mkPlatform (queue p) (nextUtterance p) (created p) (revoked p ++ [u])
        (console p) (recorderCalls p)
  | ConsoleError msg err =>
      mkPlatform (queue p) (nextUtterance p) (created p) (revoked p)
        (console p ++ [(msg, err)]) (recorderCalls p)
  | RecorderStart _ | RecorderStop _ | TracksStop _ =>
      mkPlatform (queue p) (nextUtterance p) (created p) (revoked p)
        (console p) (recorderCalls p ++ [c])
  end.

Definition apply_calls (cs : list Call) (p : Platform) : Platform :=
  fold_left (fun q c => apply_call c q) cs p.

(** An utterance leaves the queue when it ends or fails. *)
Definition dequeue (u : UtteranceId) (p : Platform) : Platform :=
  mkPlatform (filter (fun e => negb (fst e =? u)%N) (queue p))
    (nextUtterance p) (created p) (revoked p) (console p) (recorderCalls p).

(** The mounted component: its state, the platform, and the value of
    [recordings] that the cleanup function of the effect at source lines
    110-115 closed over when the effect last ran. *)
Record World := mkWorld {
  comp : State;
  captured : list Recording;
  platform : Platform;
  mounted : bool
}.

(** The cleanup function of the effect whose dependency list is
    [[recordings]] (source lines 111-114).  [SynthCancel] stands for
    [window.speechSynthesis?.cancel()], as in [cancelSpeech]. *)
Definition effect_cleanup (recs : list Recording) : list Call :=
  SynthCancel :: map (fun recording => RevokeObjectURL (url recording)) recs.

(** A handler that did not call [setRecordings]: the array is the same
    object, the effect is not run again. *)
Definition commit (r : State * list Call) (w : World) : World :=
  mkWorld (fst r) (captured w) (apply_calls (snd r) (platform w)) (mounted w).

(** A handler that called [setRecordings]: the updaters of the source
    build a new array every time (a spread, a [filter]), so the
    dependency has changed; React runs the cleanup of the previous
    effect, with the list it closed over, and runs the effect again,
    which closes over the new list. *)
Definition commit_recordings (r : State * list Call) (w : World) : World :=
  mkWorld (fst r) (recordings (fst r))
    (apply_calls (snd r ++ effect_cleanup (captured w)) (platform w))
    (mounted w).

Inductive Event :=
| EditScript (s : jsstring)                 (* the textarea's onChange *)
| ClickPreview                              (* speak *)
| ClickStopPreview                          (* cancelSpeech *)
| UtteranceStart (u : UtteranceId)          (* the 'start' event of u *)
| UtteranceEnd (u : UtteranceId)            (* the 'end' event of u *)
| UtteranceError (u : UtteranceId)          (* the 'error' event of u *)
| ClickRecord (c : Capture)                 (* toggleRecording *)
| DataAvailable (data : Blob)               (* recorder 'dataavailable' *)
| RecorderStopped (now1 now2 now3 : Z) (u : string)  (* recorder 'stop' *)
| ClickDelete (i : string)                  (* deleteRecording *)
| Unmount.                                  (* the view is torn down *)

(** One event, delivered to the mounted view.  [ClickRecord] carries the
    course a capture attempt takes; the stop branch does not look at it.
    The model follows the view until it is torn down: what listeners
    still held by the platform would do afterwards (a recorder that
    stops after teardown still runs its [onstop]) is left out. *)
Definition step (e : Event) (w : World) : World :=
  if negb (mounted w) then w
  else
    match e with
    | EditScript s => commit (set_script s (comp w), []) w
    | ClickPreview => commit (speak (comp w)) w
    | ClickStopPreview => commit (cancelSpeech (comp w)) w
    | UtteranceStart _ => commit (utterance_onstart (comp w), []) w
    | UtteranceEnd u =>
        commit (utterance_onend (comp w), [])
          (mkWorld (comp w) (captured w) (dequeue u (platform w)) (mounted w))
    | UtteranceError u =>
        commit (utterance_onerror (comp w), [])
          (mkWorld (comp w) (captured w) (dequeue u (platform w)) (mounted w))
    | ClickRecord c => commit (toggleRecording c (comp w)) w
    | DataAvailable data => commit (recorder_ondataavailable data (comp w), []) w
    | RecorderStopped now1 now2 now3 u =>
        commit_recordings (recorder_onstop now1 now2 now3 u (comp w)) w
    | ClickDelete i => commit_recordings (deleteRecording i (comp w)) w
    | Unmount =>
        mkWorld (comp w) (captured w)
          (apply_calls (effect_cleanup (captured w)) (platform w)) false
    end.

Definition run (es : list Event) (w : World) : World :=
  fold_left (fun v e => step e v) es w.

(** The initial values of the [useState] and [useRef] cells; the two
    capability flags are what the mount effect (source lines 78-108)
    stores. *)
Definition initialState (script0 : jsstring) (speechOk recordingOk : bool)
  : State :=
  mkState script0 [] [] (number_of_Z 1) (number_of_Z 1) false false [] None
    None [] speechOk recordingOk.

Definition initialWorld (script0 : jsstring) (speechOk recordingOk : bool)
  : World :=
  mkWorld (initialState script0 speechOk recordingOk) []
    (mkPlatform [] 0%N [] [] [] []) true.

(** How many times the object URL [u] has been revoked. *)
Definition released (u : string) (w : World) : nat :=
  count_occ string_dec (revoked (platform w)) u.

(** The utterances that are active: spoken or waiting to be. *)
Definition active (w : World) : list (UtteranceId * Utterance) :=
  queue (platform w).

End React.

(* ================================================================== *)
(** ** Notions the properties are stated with                          *)
(* ================================================================== *)

Module Described.
Import JS Studio React.

(** The number a string of decimal digits denotes; [None] when the
    string is empty or holds another character. *)
Definition readDecimal (s : string) : option N :=
  option_map N.of_uint (NilZero.uint_of_string s).

(** Whether [n], padded as the seconds field is, makes two characters
    that read back as [n]. *)
Definition two_digits_ok (n : nat) : bool :=
  let s := padStart 2 "0" (Number_toString (Z.of_nat n)) in
  (String.length s =? 2)%nat
  && match readDecimal s with
     | Some v => (v =? N.of_nat n)%N
     | None => false
     end.

(** A script that is empty or all white space. *)
Definition blank (s : jsstring) : bool := forallb isWhiteSpace s.

(** The white-space-delimited tokens of a text: its maximal runs of
    code units that are not white space, from left to right.  [cur]
    holds, reversed, the run being read. *)
Fixpoint tokens_from (cur : jsstring) (s : jsstring) : list jsstring :=
  match s with
  | [] => match cur with [] => [] | _ :: _ => [rev cur] end
  | c :: rest =>
      if isWhiteSpace c then
        match cur with
        | [] => tokens_from [] rest
        | _ :: _ => rev cur :: tokens_from [] rest
        end
      else tokens_from (c :: cur) rest
  end.

Definition tokens (s : jsstring) : list jsstring := tokens_from [] s.

(** How many entries of a list carry the identifier [i]. *)
Definition occurrences (i : string) (l : list Recording) : nat :=
  List.length (filter (fun item => String.eqb (id item) i) l).

(** No white space at the end (vacuous for the empty string). *)
Fixpoint noTrailingWs (s : jsstring) : bool :=
  match s with
  | [] => true
  | c :: rest =>
      match rest with
      | [] => negb (isWhiteSpace c)
      | _ :: _ => noTrailingWs rest
      end
  end.

(** Events that leave the speaking flag alone or set it: every event but
    an end, an error and a click on "Stop Preview". *)
Definition keeps_speaking (e : Event) : bool :=
  match e with
  | UtteranceEnd _ | UtteranceError _ | ClickStopPreview => false
  | _ => true
  end.

(** Calls that change the utterance queue. *)
Definition synth_call (c : Call) : bool :=
  match c with
  | SynthCancel | SynthSpeak _ => true
  | _ => false
  end.

End Described.

(** Closed statements about a given trace are settled by running it. *)
Ltac run_trace := cbv zeta; repeat split; vm_compute; reflexivity.

(* ================================================================== *)
(** ** The rest of the component                                       *)
(* ================================================================== *)

Module Rest.
Import JS Studio React.

Definition setVoices (v : list Voice) (s : State) : State :=
  mkState (script s) v (selectedVoice s) (pitch s) (rate s) (isSpeaking s)
    (isRecording s) (recordings s) (recorderRef s) (recordStartRef s)
    (audioChunksRef s) (speechSupported s) (recordingSupported s).

Definition setSelectedVoice (v : jsstring) (s : State) : State :=
  mkState (script s) (voices s) v (pitch s) (rate s) (isSpeaking s)
    (isRecording s) (recordings s) (recorderRef s) (recordStartRef s)
    (audioChunksRef s) (speechSupported s) (recordingSupported s).

(** Whether [pat] occurs in [s] at its first position. *)
Fixpoint starts_with (pat s : jsstring) : bool :=
  match pat, s with
  | [], _ => true
  | _ :: _, [] => false
  | p :: pat', c :: s' => (p =? c)%N && starts_with pat' s'
  end.

(** Whether [pat] occurs in [s] at some position: what [test] answers
    for a regular expression that is a literal. *)
Fixpoint includes (pat s : jsstring) : bool :=
  starts_with pat s
  || match s with
     | [] => false
     | _ :: s' => includes pat s'
     end.

(** [/en\-IN|en\-US/.test(lang)] (source line 97): one of the two
    literals occurs somewhere in the language tag. *)
Definition preferredLocale (l : jsstring) : bool :=
  includes (of_ascii_string "en-IN") l || includes (of_ascii_string "en-US") l.

(** [updateVoices] (source lines 93-100); [loadedVoices] is what
    [synth.getVoices()] returns.  [preferred?.name || loadedVoices[0].name]
    falls back to the first voice when no voice is preferred and also
    when the preferred voice has the empty name. *)
Definition updateVoices (loadedVoices : list Voice) (st : State) : State :=
  let st1 := setVoices loadedVoices st in
  match loadedVoices with
  | first :: _ =>
      if negb (truthy_string (selectedVoice st)) then
        let preferred := find (fun voice => preferredLocale (lang voice))
                              loadedVoices in
        let chosen :=
          match preferred with
          | Some voice => if truthy_string (name voice) then name voice
                          else name first
          | None => name first
          end in
        setSelectedVoice chosen st1
      else st1
  | [] => st1
  end.

(** The four messages of [speakingHint] (source lines 205-213). *)
Definition hintUnsupported : string :=
  "Speech synthesis is not supported in this browser.".
Definition hintEmpty : string := "Add some text to preview the voiceover.".
Definition hintPlaying : string := "Playing voiceover preview…".
Definition hintReady : string := "Ready to preview.".

(** [speakingHint] (source lines 205-213).  The messages are kept as
    the bytes of the source file. *)
Definition speakingHint (st : State) : string :=
  if negb (speechSupported st) then hintUnsupported
  else if negb (truthy_string (trim (script st))) then hintEmpty
  else if isSpeaking st then hintPlaying else hintReady.

(** [handlePickIdea] and [clearScript] (source lines 222-226). *)
Definition handlePickIdea (text : jsstring) (st : State) : State :=
  set_script text st.

Definition clearScript (st : State) : State := set_script [] st.

(** What [downloadRecording] hands to the browser: the anchor's [href]
    and its [download] attribute at the time of the click. *)
Record Download := mkDownload { href : string; download : string }.

(** [downloadRecording] (source lines 238-247): [None] when it returns
    early, otherwise the download that the click on the anchor starts.
    The anchor is added to the document and removed again; the state of
    the component is not written. *)
Definition downloadRecording (i : string) (st : State) : option Download :=
  match find (fun item => String.eqb (id item) i) (recordings st) with
  | None => None
  | Some recording =>
      Some (mkDownload (url recording) ("voiceover-" ++ i ++ ".webm")%string)
  end.

End Rest.

(* ================================================================== *)
(** ** Bookkeeping used by the further properties                      *)
(* ================================================================== *)

Module Ledger.
Import JS Studio React.

(** The URLs a list of calls creates, and those it revokes. *)
Definition created_of (cs : list Call) : list string :=
  flat_map (fun c => match c with CreateObjectURL _ u => [u] | _ => [] end) cs.

Definition revoked_of (cs : list Call) : list string :=
  flat_map (fun c => match c with RevokeObjectURL u => [u] | _ => [] end) cs.

(** Calls made on a recorder or its tracks. *)
Definition recorder_call (c : Call) : bool :=
  match c with
  | RecorderStart _ | RecorderStop _ | TracksStop _ => true
  | _ => false
  end.

(** The text before the first colon and the text after it. *)
Fixpoint splitAtColon (s : string) : option (string * string) :=
  match s with
  | EmptyString => None
  | String c rest =>
      if Ascii.eqb c ":" then Some (EmptyString, rest)
      else match splitAtColon rest with
           | Some (a, b) => Some (String c a, b)
           | None => None
           end
  end.

(** The whole seconds that a text of the form [M:SS] stands for. *)
Definition readDuration (s : string) : option Z :=
  match splitAtColon s with
  | Some (m, ss) =>
      match Described.readDecimal m, Described.readDecimal ss with
      | Some a, Some b => Some (60 * Z.of_N a + Z.of_N b)
      | _, _ => None
      end
  | None => None
  end.

(** Chunks that [recorder.ondataavailable] keeps. *)
Definition kept_chunks (datas : list Blob) : list Blob :=
  filter (fun data => (0 <? List.length data)%nat) datas.

End Ledger.

(* ================================================================== *)
(** ** The two paths of [toggleRecording]                              *)
(* ================================================================== *)

Module Paths.
Import JS Studio.




End Paths.

(* ================================================================== *)
(** ** Properties of the derived metrics                               *)
(* ================================================================== *)

Section DurationFacts.
Import JS Metrics Described.
Open Scope string_scope.

(** [Math.round] of [n / d] is the nearest integer, a tie going up. *)
Lemma Math_round_div_nearest (n d : Z) :
  0 < d ->
  2 * d * Math_round_div n d - d <= 2 * n < 2 * d * Math_round_div n d + d.
Proof.
  intros Hd. unfold Math_round_div.
  pose proof (Z.div_mod (2 * n + d) (2 * d) ltac:(lia)) as E.
  pose proof (Z.mod_pos_bound (2 * n + d) (2 * d) ltac:(lia)) as B.
  lia.
Qed.

Lemma Math_round_div_nonneg (n d : Z) :
  0 < d -> 0 <= n -> 0 <= Math_round_div n d.
Proof.
  intros Hd Hn. unfold Math_round_div. apply Z.div_pos; lia.
Qed.

Lemma Math_round_div_negative (n d : Z) :
  0 < d -> n < 0 -> Math_round_div n d <= 0.
Proof.
  intros Hd Hn. unfold Math_round_div.
  assert ((2 * n + d) / (2 * d) < 1); [| lia].
  apply Z.div_lt_upper_bound; lia.
Qed.

(** Printing a natural number and reading it back. *)
Lemma readDecimal_Number_toString (z : Z) :
  0 <= z -> readDecimal (Number_toString z) = Some (Z.to_N z).
Proof.
  intros Hz. unfold readDecimal, Number_toString.
  destruct z as [| p | p]; [reflexivity | | lia].
  cbn [Z.to_int NilZero.string_of_int Z.to_N].
  rewrite NilZero.usu by apply DecimalPos.Unsigned.to_uint_nonnil.
  cbn [option_map]. f_equal.
  change (Pos.to_uint p) with (N.to_uint (N.pos p)).
  apply DecimalN.Unsigned.of_to.
Qed.

(** [Number::toString] tells integers apart. *)
Lemma Number_toString_inj (a b : Z) :
  Number_toString a = Number_toString b -> a = b.
Proof.
  unfold Number_toString. intros E.
  apply DecimalZ.to_int_inj.
  assert (G : forall z, NilZero.int_of_string (NilZero.string_of_int (Z.to_int z))
                        = Some (Z.to_int z)).
  { intros z. apply NilZero.isi; destruct z; cbn; try discriminate;
      intros [= H]; now apply DecimalPos.Unsigned.to_uint_nonnil in H. }
  pose proof (G a) as Ga. rewrite E, G in Ga. now injection Ga.
Qed.

Lemma two_digits_table : forallb two_digits_ok (seq 0 100) = true.
Proof. vm_compute. reflexivity. Qed.

Lemma padStart_two_digits (s : Z) :
  0 <= s < 100 ->
  String.length (padStart 2 "0" (Number_toString s)) = 2%nat
  /\ readDecimal (padStart 2 "0" (Number_toString s)) = Some (Z.to_N s).
Proof.
  intros Hs.
  pose proof two_digits_table as T.
  rewrite forallb_forall in T.
  specialize (T (Z.to_nat s)).
  assert (I : In (Z.to_nat s) (seq 0 100)) by (apply in_seq; lia).
  apply T in I. unfold two_digits_ok in I.
  rewrite Z2Nat.id in I by lia.
  apply andb_prop in I. destruct I as [L R].
  apply Nat.eqb_eq in L. split; [exact L |].
  destruct (readDecimal _) as [v |]; [| discriminate].
  apply N.eqb_eq in R. subst v. f_equal. lia.
Qed.

End DurationFacts.

Section DurationClaims.
Import JS Metrics Described.
Open Scope string_scope.

(** Claim C7.  For every duration [d >= 0] in milliseconds,
    [formattedDuration d] has the form [M:SS]: [SS] is two digits that
    read as [round (d/1000) mod 60] and [M] is the decimal numeral of
    [floor (round (d/1000) / 60)], where [round (d/1000)] is the integer
    nearest to [d/1000] (a tie going up); and
    [formattedDuration 125000 = "2:05"]. *)
Theorem formattedDuration_shape (d : Z) :
  0 <= d ->
  let r := Math_round_div d 1000 in
  (1000 * r - 500 <= d < 1000 * r + 500)
  /\ (exists M SS : string,
        formattedDuration d = M ++ ":" ++ SS
        /\ String.length SS = 2%nat
        /\ readDecimal SS = Some (Z.to_N (r mod 60))
        /\ M = Number_toString (r / 60)
        /\ readDecimal M = Some (Z.to_N (r / 60)))
  /\ formattedDuration 125000 = "2:05".
Proof.
  intros Hd r.
  assert (Hr : 0 <= r) by (apply Math_round_div_nonneg; lia).
  split; [| split].
  - pose proof (Math_round_div_nearest d 1000 ltac:(lia)) as B.
    fold r in B. lia.
  - exists (Number_toString (r / 60)), (padStart 2 "0" (Number_toString (r mod 60))).
    assert (Hm : 0 <= r mod 60 < 100)
      by (pose proof (Z.mod_pos_bound r 60 ltac:(lia)); lia).
    destruct (padStart_two_digits (r mod 60) Hm) as [L R].
    repeat split; try assumption.
    + unfold formattedDuration, Math_max, Math_floor_div, rem. fold r.
      rewrite Z.max_r by exact Hr.
      rewrite Z.rem_mod_nonneg by lia. reflexivity.
    + apply readDecimal_Number_toString. apply Z.div_pos; lia.
  - vm_compute. reflexivity.
Qed.

Lemma formattedDuration_shape_witness :
  0 <= 125000
  /\ (exists M SS : string,
        formattedDuration 125000 = M ++ ":" ++ SS
        /\ String.length SS = 2%nat
        /\ readDecimal SS = Some (Z.to_N (Math_round_div 125000 1000 mod 60))
        /\ M = Number_toString (Math_round_div 125000 1000 / 60)
        /\ readDecimal M = Some (Z.to_N (Math_round_div 125000 1000 / 60))).
Proof.
  split.
  - lia.
  - apply (formattedDuration_shape 125000). lia.
Defined.

(** Claim C10.  For every negative duration [d], [formattedDuration d]
    is ["0:00"]: the formatter is defined on every integer and clamps
    what lies below zero. *)
Theorem formattedDuration_negative (d : Z) :
  d < 0 -> formattedDuration d = "0:00".
Proof.
  intros Hd. unfold formattedDuration, Math_max.
  rewrite Z.max_l by (apply Math_round_div_negative; lia).
  reflexivity.
Qed.

Lemma formattedDuration_negative_witness :
  -1 < 0 /\ formattedDuration (-1) = "0:00".
Proof.
  split.
  - lia.
  - apply (formattedDuration_negative (-1)). lia.
Defined.

End DurationClaims.

(* ================================================================== *)
(** ** Word count                                                      *)
(* ================================================================== *)

Section WordCountFacts.
Import JS Metrics Described.

Lemma noTrailingWs_snoc (l : jsstring) (c : codeunit) :
  noTrailingWs (l ++ [c]) = negb (isWhiteSpace c).
Proof.
  induction l as [| a l IH]; [reflexivity |].
  cbn [app noTrailingWs]. destruct (l ++ [c]) eqn:E.
  - destruct l; discriminate.
  - exact IH.
Qed.

Lemma trimStart_blank (s : jsstring) :
  trimStart s = [] <-> blank s = true.
Proof.
  unfold blank. induction s as [| c s IH]; cbn; [tauto |].
  destruct (isWhiteSpace c); cbn; [exact IH |].
  split; discriminate.
Qed.

Lemma trimStart_head (s : jsstring) (c : codeunit) (rest : jsstring) :
  trimStart s = c :: rest -> isWhiteSpace c = false.
Proof.
  induction s as [| a s IH]; cbn; [discriminate |].
  destruct (isWhiteSpace a) eqn:E; [exact IH |].
  intros [= <- _]. exact E.
Qed.

Lemma trimStart_snoc (l : jsstring) (c : codeunit) :
  isWhiteSpace c = false -> trimStart (l ++ [c]) = trimStart l ++ [c].
Proof.
  intros Hc. induction l as [| a l IH]; cbn.
  - now rewrite Hc.
  - destruct (isWhiteSpace a); [exact IH | reflexivity].
Qed.

(** [trimEnd] keeps a first unit that is not white space. *)
Lemma trimEnd_cons (c : codeunit) (rest : jsstring) :
  isWhiteSpace c = false -> trimEnd (c :: rest) = c :: trimEnd rest.
Proof.
  intros Hc. unfold trimEnd. cbn [rev].
  rewrite trimStart_snoc by exact Hc.
  rewrite rev_app_distr. reflexivity.
Qed.

Lemma trimEnd_noTrailingWs (s : jsstring) : noTrailingWs (trimEnd s) = true.
Proof.
  unfold trimEnd. destruct (trimStart (rev s)) as [| c l] eqn:E; [reflexivity |].
  cbn [rev]. rewrite noTrailingWs_snoc.
  now rewrite (trimStart_head _ _ _ E).
Qed.

(** The trimmed text is empty exactly for a blank script; otherwise it
    starts with a unit that is not white space and does not end with
    white space. *)
Lemma trim_cases (s : jsstring) :
  (trim s = [] /\ blank s = true)
  \/ (exists c rest, trim s = c :: rest /\ isWhiteSpace c = false
                     /\ noTrailingWs (c :: rest) = true /\ blank s = false).
Proof.
  unfold trim. destruct (trimStart s) as [| c l] eqn:E.
  - left. split; [reflexivity | now apply trimStart_blank].
  - right. pose proof (trimStart_head _ _ _ E) as Hc.
    exists c, (trimEnd l). rewrite trimEnd_cons by exact Hc.
    repeat split; try assumption.
    + rewrite <- trimEnd_cons by exact Hc. apply trimEnd_noTrailingWs.
    + destruct (blank s) eqn:B; [| reflexivity].
      apply trimStart_blank in B. congruence.
Qed.

(** On a text with no white space at its end, [split] with [/\s+/]
    yields the tokens, once a first unit has been read. *)
Lemma split_ws_from_tokens (s : jsstring) :
  noTrailingWs s = true ->
  (forall cur, cur <> [] -> split_ws_from false cur s = tokens_from cur s)
  /\ (s <> [] -> split_ws_from true [] s = tokens_from [] s).
Proof.
  induction s as [| c rest IH]; intros Hn.
  - split; [| congruence].
    intros [| a cur] Hcur; [congruence | reflexivity].
  - assert (Hrest : noTrailingWs rest = true).
    { destruct rest; [reflexivity | exact Hn]. }
    destruct (IH Hrest) as [IHf IHt].
    assert (Hws : isWhiteSpace c = true -> rest <> []).
    { intros W ->. cbn in Hn. rewrite W in Hn. discriminate. }
    split.
    + intros [| a cur] Hcur; [congruence |].
      cbn [split_ws_from tokens_from].
      destruct (isWhiteSpace c) eqn:W.
      * rewrite IHt by auto. reflexivity.
      * apply IHf. discriminate.
    + intros _. cbn [split_ws_from tokens_from].
      destruct (isWhiteSpace c) eqn:W.
      * apply IHt. auto.
      * apply IHf. discriminate.
Qed.

Lemma split_ws_trimmed (c : codeunit) (rest : jsstring) :
  isWhiteSpace c = false -> noTrailingWs (c :: rest) = true ->
  split_ws (c :: rest) = tokens (c :: rest).
Proof.
  intros Hc Hn. unfold split_ws, tokens.
  cbn [split_ws_from tokens_from]. rewrite Hc.
  apply split_ws_from_tokens; [| discriminate].
  destruct rest; [reflexivity | exact Hn].
Qed.

Lemma split_ws_from_nonempty (b : bool) (cur s : jsstring) :
  split_ws_from b cur s <> [].
Proof.
  revert b cur. induction s as [| c rest IH]; intros b cur; cbn.
  - discriminate.
  - destruct (isWhiteSpace c); [destruct b |]; try apply IH. discriminate.
Qed.

(** Every token is a non-empty run without white space. *)
Lemma tokens_from_wellformed (s cur : jsstring) :
  forallb (fun c => negb (isWhiteSpace c)) cur = true ->
  Forall (fun t => t <> [] /\ forallb (fun c => negb (isWhiteSpace c)) t = true)
         (tokens_from cur s).
Proof.
  revert cur. induction s as [| c rest IH]; intros cur Hcur.
  - destruct cur as [| a cur]; cbn [tokens_from]; constructor; [| constructor].
    split.
    + intros E. apply (f_equal (@List.length _)) in E.
      rewrite length_rev in E. discriminate.
    + rewrite forallb_forall in *. intros x Hx. apply Hcur. now apply in_rev.
  - cbn [tokens_from]. destruct (isWhiteSpace c) eqn:W.
    + destruct cur as [| a cur]; [now apply IH |].
      constructor; [| now apply IH].
      split.
      * intros E. apply (f_equal (@List.length _)) in E.
        rewrite length_rev in E. discriminate.
      * rewrite forallb_forall in *. intros x Hx. apply Hcur. now apply in_rev.
    + apply IH. cbn. now rewrite W.
Qed.

End WordCountFacts.

Section WordCountClaims.
Import JS Metrics Described.

(** Claim C8.  For every script [S], [wordCount S] is 0 exactly when [S]
    is empty or consists of white space only; otherwise it is the number
    of white-space-delimited tokens of the trimmed script, which are the
    pieces that [split] returns.  (Each token is a non-empty run of units
    that are not white space.) *)
Theorem wordCount_tokens (S : jsstring) :
  (wordCount S = 0%nat <-> (S = [] \/ forallb isWhiteSpace S = true))
  /\ (wordCount S <> 0%nat ->
      split_ws (trim S) = tokens (trim S)
      /\ wordCount S = List.length (tokens (trim S)))
  /\ Forall (fun t => t <> [] /\ forallb (fun c => negb (isWhiteSpace c)) t = true)
            (tokens (trim S)).
Proof.
  assert (W : wordCount S = 0%nat <-> blank S = true).
  { unfold wordCount.
    destruct (trim_cases S) as [[E B] | (c & rest & E & Hc & Hn & B)];
      rewrite E; cbn [truthy_string negb].
    - tauto.
    - rewrite B. split; [| discriminate].
      intros L. apply length_zero_iff_nil in L.
      now apply split_ws_from_nonempty in L. }
  split; [| split].
  - rewrite W. unfold blank. split; [tauto |].
    intros [-> | H]; [reflexivity | exact H].
  - intros NZ.
    destruct (trim_cases S) as [[E B] | (c & rest & E & Hc & Hn & B)].
    + apply W in B. contradiction.
    + assert (Sp : split_ws (trim S) = tokens (trim S)).
      { rewrite E. now apply split_ws_trimmed. }
      split; [exact Sp |].
      unfold wordCount. rewrite <- Sp, E. reflexivity.
  - apply tokens_from_wellformed. reflexivity.
Qed.

Lemma wordCount_tokens_witness :
  let S := of_ascii_string "  Hello   world " in
  wordCount S <> 0%nat
  /\ split_ws (trim S) = tokens (trim S)
  /\ wordCount S = List.length (tokens (trim S))
  /\ wordCount S = 2%nat.
Proof.
  cbv zeta.
  assert (NZ : wordCount (of_ascii_string "  Hello   world ") <> 0%nat)
    by (vm_compute; discriminate).
  split; [exact NZ |].
  destruct (proj1 (proj2 (wordCount_tokens (of_ascii_string "  Hello   world "))) NZ)
    as [A B].
  split; [exact A | split; [exact B | reflexivity]].
Defined.

End WordCountClaims.

(* ================================================================== *)
(** ** Recording booth                                                 *)
(* ================================================================== *)

Section BoothFacts.
Import JS Studio React Described.

Lemma occurrences_cons (i : string) (r : Recording) (l : list Recording) :
  occurrences i (r :: l)
  = ((if String.eqb (id r) i then 1 else 0) + occurrences i l)%nat.
Proof.
  unfold occurrences. cbn [filter]. now destruct (String.eqb (id r) i).
Qed.

(** With no entry of that identifier, [find] finds nothing and [filter]
    keeps everything. *)
Lemma absent_find_filter (i : string) (l : list Recording) :
  occurrences i l = 0%nat ->
  find (fun item => String.eqb (id item) i) l = None
  /\ filter (fun item => negb (String.eqb (id item) i)) l = l.
Proof.
  induction l as [| r l IH]; intros H; [now split |].
  rewrite occurrences_cons in H. cbn [find filter].
  destruct (String.eqb (id r) i); [discriminate |].
  destruct (IH H) as [F K]. cbn [negb]. now rewrite F, K.
Qed.

(** With exactly one entry of that identifier, the list splits around
    it; [find] returns it and [filter] drops it alone. *)
Lemma single_find_filter (i : string) (l : list Recording) :
  occurrences i l = 1%nat ->
  exists l1 r l2,
    l = l1 ++ r :: l2 /\ id r = i
    /\ find (fun item => String.eqb (id item) i) l = Some r
    /\ filter (fun item => negb (String.eqb (id item) i)) l = l1 ++ l2.
Proof.
  induction l as [| a l IH]; intros H; [discriminate |].
  rewrite occurrences_cons in H. cbn [find filter].
  destruct (String.eqb (id a) i) eqn:E.
  - exists [], a, l. apply String.eqb_eq in E.
    destruct (absent_find_filter i l ltac:(lia)) as [_ K].
    cbn [negb app]. now rewrite K.
  - destruct (IH H) as (l1 & r & l2 & -> & Hr & F & K).
    exists (a :: l1), r, l2. cbn [negb app]. now rewrite F, K.
Qed.

(** Pairwise distinct identifiers leave at most one entry per
    identifier. *)
Lemma NoDup_occurrences (i : string) (l : list Recording) :
  NoDup (map id l) -> (occurrences i l <= 1)%nat.
Proof.
  induction l as [| r l IH]; intros N; [cbn; lia |].
  inversion N as [| x xs Hnot Hrest]; subst.
  rewrite occurrences_cons. specialize (IH Hrest).
  destruct (String.eqb (id r) i) eqn:E; [| lia].
  apply String.eqb_eq in E.
  assert (occurrences i l = 0%nat); [| lia].
  destruct (occurrences i l) eqn:O; [reflexivity | exfalso].
  apply Hnot. unfold occurrences in O.
  destruct (filter _ l) as [| y ys] eqn:F; [discriminate |].
  assert (Hy : In y (filter (fun item => String.eqb (id item) i) l))
    by (rewrite F; now left).
  apply filter_In in Hy. destruct Hy as [Hin Hid].
  apply String.eqb_eq in Hid. rewrite E, <- Hid. now apply in_map.
Qed.

Lemma occurrences_zero_not_In (i : string) (l : list Recording) :
  occurrences i l = 0%nat <-> ~ In i (map id l).
Proof.
  induction l as [| r l IH]; [cbn; tauto |].
  rewrite occurrences_cons. cbn [map In].
  destruct (String.eqb_spec (id r) i) as [E | E].
  - split; [lia | intros H; exfalso; apply H; now left].
  - cbn. rewrite IH. tauto.
Qed.

Lemma setRecordings_same (f : list Recording -> list Recording) (st : State) :
  f (recordings st) = recordings st -> setRecordings f st = st.
Proof.
  intros E. destruct st. unfold setRecordings. cbn in *. now rewrite E.
Qed.

(** Chunks arriving during a capture touch the buffer only. *)
Lemma ondataavailable_fields (data : Blob) (st : State) :
  let st' := recorder_ondataavailable data st in
  recordings st' = recordings st
  /\ isRecording st' = isRecording st
  /\ recordStartRef st' = recordStartRef st
  /\ recorderRef st' = recorderRef st
  /\ recordingSupported st' = recordingSupported st.
Proof.
  unfold recorder_ondataavailable.
  destruct (0 <? List.length data)%nat; cbn; repeat split.
Qed.

Lemma ondataavailable_many (datas : list Blob) (st : State) :
  let st' := fold_left (fun s b => recorder_ondataavailable b s) datas st in
  recordings st' = recordings st
  /\ isRecording st' = isRecording st
  /\ recordStartRef st' = recordStartRef st
  /\ recorderRef st' = recorderRef st
  /\ recordingSupported st' = recordingSupported st.
Proof.
  revert st. induction datas as [| b datas IH]; intros st; cbn [fold_left].
  - repeat split.
  - destruct (IH (recorder_ondataavailable b st)) as (A & B & C & D & E).
    destruct (ondataavailable_fields b st) as (A' & B' & C' & D' & E').
    cbv zeta in *. repeat split; congruence.
Qed.

End BoothFacts.

Section BoothClaims.
Import JS Studio React Described.

(** Claim C2, as amended.  After a capture was started (clock reading
    [t0]) and then stopped, the handler of the recorder's stop event puts
    exactly one new entry in front of the list.  Its duration is the
    clock reading at the stop minus [t0] (and 0 when the start reading is
    0, which the source takes for a missing one; 0 too whenever the start
    reference is empty).  Its identifier is the decimal numeral of the
    clock reading [now2]; it differs from every identifier already in the
    list provided each of those is the numeral of a reading other than
    [now2]. *)
Theorem recording_prepended
  (st : State) (r : RecorderId) (t0 now1 now2 now3 : Z) (u : string)
  (datas : list Blob) (c : Capture) :
  recordingSupported st = true -> isRecording st = false ->
  let started := fst (toggleRecording (Started r t0) st) in
  let fed := fold_left (fun s b => recorder_ondataavailable b s) datas started in
  let stopping := fst (toggleRecording c fed) in
  let stopped := fst (recorder_onstop now1 now2 now3 u stopping) in
  isRecording started = true
  /\ snd (toggleRecording c fed) = [RecorderStop r; TracksStop r]
  /\ recordings stopped
     = mkRecording (Number_toString now2) u now3 (if t0 =? 0 then 0 else now1 - t0)
       :: recordings st
  /\ isRecording stopped = false
  /\ ((forall old, In old (recordings st) ->
         exists t, id old = Number_toString t /\ t <> now2) ->
      ~ In (Number_toString now2) (map id (recordings st)))
  /\ (forall s, recordStartRef s = None ->
        recordings (fst (recorder_onstop now1 now2 now3 u s))
        = mkRecording (Number_toString now2) u now3 0 :: recordings s).
Proof.
  intros Hsup Hidle. cbv zeta.
  assert (S1 : toggleRecording (Started r t0) st
               = (setIsRecording true
                    (set_recordStartRef (Some t0)
                       (set_audioChunksRef [] (set_recorderRef (Some r) st))),
                  [RecorderStart r])).
  { unfold toggleRecording. rewrite Hsup, Hidle. reflexivity. }
  rewrite S1. cbn [fst].
  set (started := setIsRecording true _).
  destruct (ondataavailable_many datas started) as (A & B & C & D & E).
  cbv zeta in A, B, C, D, E.
  set (fed := fold_left _ datas started) in *.
  assert (S2 : toggleRecording c fed
               = (setIsRecording false fed, [RecorderStop r; TracksStop r])).
  { unfold toggleRecording. rewrite E, B, D. subst started. cbn.
    rewrite Hsup. reflexivity. }
  rewrite S2. cbn [fst snd].
  split; [reflexivity |]. split; [reflexivity |]. split; [| split; [| split]].
  - unfold recorder_onstop. cbn. rewrite A, C. reflexivity.
  - reflexivity.
  - intros Hold Hin. apply in_map_iff in Hin.
    destruct Hin as (old & Hid & Hin).
    destruct (Hold old Hin) as (t & Ht & Hne).
    rewrite Ht in Hid. apply Number_toString_inj in Hid. contradiction.
  - intros s Hs. unfold recorder_onstop. cbn. rewrite Hs. reflexivity.
Qed.

Lemma recording_prepended_witness :
  let st := initialState [] true true in
  recordingSupported st = true /\ isRecording st = false
  /\ recordings
       (fst (recorder_onstop 3500 3501 3502 "blob:a"
               (fst (toggleRecording (Started 1%N 0)
                       (fold_left (fun s b => recorder_ondataavailable b s)
                          [[1%N; 2%N]]
                          (fst (toggleRecording (Started 1%N 1000) st)))))))
     = [mkRecording "3501" "blob:a" 3502 2500].
Proof.
  cbv zeta. split; [reflexivity | split; [reflexivity |]].
  apply (recording_prepended (initialState [] true true) 1%N 1000 3500 3501
           3502 "blob:a" [[1%N; 2%N]] (Started 1%N 0)); reflexivity.
Defined.

(** Claim C2 as stated fails on the identifier: two stops that read the
    same clock value give two entries the same identifier. *)
Lemma recorder_onstop_repeats_identifier :
  let take (n : RecorderId) (t0 : Z) (u : string) :=
    [ClickRecord (Started n t0); ClickRecord (Started n t0);
     RecorderStopped 1000 1000 1000 u] in
  let before := run (take 1%N 900 "blob:a"%string) (initialWorld [] true true) in
  let after := run (take 2%N 1000 "blob:b"%string) before in
  map id (recordings (comp before)) = ["1000"%string]
  /\ map id (recordings (comp after)) = ["1000"%string; "1000"%string]
  /\ In (hd EmptyString (map id (recordings (comp after))))
        (map id (recordings (comp before))).
Proof.
  cbv zeta. split; [reflexivity | split; [reflexivity |]].
  left. reflexivity.
Qed.

(** Claim C6.  When [toggleRecording] is called in a state that is not
    recording and the microphone request is rejected,
    [requestRecordingStream] throws before it touches anything, the
    handler catches the error and reports it on the console, and the
    whole state is unchanged: the flag stays false and no Recording is
    created. *)
Theorem toggleRecording_microphone_failure (st : State) (err : string) :
  recordingSupported st = true -> isRecording st = false ->
  requestRecordingStream (GetUserMediaRejected err) st = Thrown err st []
  /\ toggleRecording (GetUserMediaRejected err) st
     = (st, [ConsoleError "Unable to access microphone" err])
  /\ isRecording (fst (toggleRecording (GetUserMediaRejected err) st)) = false
  /\ recordings (fst (toggleRecording (GetUserMediaRejected err) st))
     = recordings st.
Proof.
  intros Hsup Hidle.
  assert (T : toggleRecording (GetUserMediaRejected err) st
              = (st, [ConsoleError "Unable to access microphone" err])).
  { unfold toggleRecording. rewrite Hsup, Hidle. reflexivity. }
  rewrite T. cbn [fst]. repeat split. exact Hidle.
Qed.

Lemma toggleRecording_microphone_failure_witness :
  let st := initialState [] true true in
  recordingSupported st = true /\ isRecording st = false
  /\ toggleRecording (GetUserMediaRejected "NotAllowedError") st
     = (st, [ConsoleError "Unable to access microphone" "NotAllowedError"]).
Proof.
  cbv zeta. split; [reflexivity | split; [reflexivity |]].
  apply (toggleRecording_microphone_failure (initialState [] true true)
           "NotAllowedError"); reflexivity.
Defined.

End BoothClaims.

(* ================================================================== *)
(** ** Traces of events                                                *)
(* ================================================================== *)

Section TraceFacts.
Import JS Studio React Described.

Lemma run_snoc (es : list Event) (e : Event) (w : World) :
  run (es ++ [e]) w = step e (run es w).
Proof. unfold run. now rewrite fold_left_app. Qed.

Lemma apply_calls_app (cs1 cs2 : list Call) (p : Platform) :
  apply_calls (cs1 ++ cs2) p = apply_calls cs2 (apply_calls cs1 p).
Proof. unfold apply_calls. now rewrite fold_left_app. Qed.

(** Calls that are not addressed to [speechSynthesis] leave the queue
    alone. *)
Lemma apply_calls_queue (cs : list Call) (p : Platform) :
  forallb (fun c => negb (synth_call c)) cs = true ->
  queue (apply_calls cs p) = queue p.
Proof.
  revert p. induction cs as [| c cs IH]; intros p H; [reflexivity |].
  cbn [forallb] in H. apply andb_prop in H. destruct H as [Hc Hcs].
  unfold apply_calls in *. cbn [fold_left]. rewrite IH by exact Hcs.
  destruct c; try discriminate Hc; reflexivity.
Qed.

Lemma effect_cleanup_queue (recs : list Recording) (p : Platform) :
  queue (apply_calls (effect_cleanup recs) p) = [].
Proof.
  unfold effect_cleanup, apply_calls. cbn [fold_left].
  fold (apply_calls (map (fun recording => RevokeObjectURL (url recording)) recs)
          (apply_call SynthCancel p)).
  rewrite apply_calls_queue; [reflexivity |].
  induction recs; [reflexivity | exact IHrecs].
Qed.

Lemma toggleRecording_calls (c : Capture) (st : State) :
  forallb (fun c => negb (synth_call c)) (snd (toggleRecording c st)) = true.
Proof.
  unfold toggleRecording.
  destruct (recordingSupported st); [| reflexivity].
  destruct (isRecording st); cbn [negb].
  - destruct (recorderRef st); reflexivity.
  - destruct c; reflexivity.
Qed.

Lemma toggleRecording_isSpeaking (c : Capture) (st : State) :
  isSpeaking (fst (toggleRecording c st)) = isSpeaking st.
Proof.
  unfold toggleRecording.
  destruct (recordingSupported st); [| reflexivity].
  destruct (isRecording st); cbn [negb]; [reflexivity |].
  destruct c; reflexivity.
Qed.

(** [speak] goes ahead exactly when speech is supported and the script
    is not blank. *)
Lemma speak_cases (st : State) :
  (speechSupported st = true /\ blank (script st) = false
   /\ exists u, text u = script st
                /\ speak st = (st, [SynthCancel; SynthSpeak u]))
  \/ ((speechSupported st = false \/ blank (script st) = true)
      /\ speak st = (st, [])).
Proof.
  unfold speak. destruct (speechSupported st); cbn [negb orb].
  - destruct (trim_cases (script st)) as [[E B] | (c & rest & E & _ & _ & B)];
      rewrite E; cbn [truthy_string negb].
    + right. auto.
    + left. repeat split; try assumption.
      exists (mkUtterance (script st) (pitch st) (rate st)
                (find (fun v => jsstring_eqb (name v) (selectedVoice st))
                      (voices st))).
      split; reflexivity.
  - right. auto.
Qed.

(** A torn-down view stays torn down. *)
Lemma step_mounted (e : Event) (w : World) :
  mounted (step e w) = true -> mounted w = true.
Proof.
  unfold step. destruct (mounted w) eqn:M; [reflexivity |].
  cbn [negb]. rewrite M. auto.
Qed.

(** One event cannot bring the number of active utterances above one. *)
Lemma step_active (e : Event) (w : World) :
  (List.length (active w) <= 1)%nat ->
  (List.length (active (step e w)) <= 1)%nat.
Proof.
  intros H. unfold step, active in *.
  destruct (mounted w); cbn [negb]; [| exact H].
  destruct e; unfold commit, commit_recordings;
    cbn [platform fst snd apply_calls fold_left]; try exact H.
  - destruct (speak_cases (comp w)) as [(_ & _ & u & _ & E) | (_ & E)];
      rewrite E; cbn; [lia | exact H].
  - cbn. lia.
  - cbn [dequeue queue].
    eapply Nat.le_trans; [apply filter_length_le | exact H].
  - cbn [dequeue queue].
    eapply Nat.le_trans; [apply filter_length_le | exact H].
  - fold (apply_calls (snd (toggleRecording c (comp w))) (platform w)).
    rewrite apply_calls_queue; [exact H | apply toggleRecording_calls].
  - rewrite apply_calls_app, effect_cleanup_queue. cbn. lia.
  - rewrite apply_calls_app, effect_cleanup_queue. cbn. lia.
  - rewrite effect_cleanup_queue. cbn. lia.
Qed.

Lemma run_active (es : list Event) (w : World) :
  (List.length (active w) <= 1)%nat ->
  (List.length (active (run es w)) <= 1)%nat.
Proof.
  revert w. induction es as [| e es IH]; intros w H; [exact H |].
  cbn [run fold_left]. apply IH. now apply step_active.
Qed.

(** What one event does to the speaking flag of a mounted view. *)
Lemma step_isSpeaking (e : Event) (w : World) :
  mounted (step e w) = true ->
  isSpeaking (comp (step e w))
  = match e with
    | UtteranceStart _ => true
    | UtteranceEnd _ | UtteranceError _ | ClickStopPreview => false
    | _ => isSpeaking (comp w)
    end.
Proof.
  unfold step. destruct (mounted w) eqn:M; cbn [negb].
  - destruct e; unfold commit, commit_recordings; cbn [comp fst mounted];
      intros _; try reflexivity.
    + destruct (speak_cases (comp w)) as [(_ & _ & u & _ & E) | (_ & E)];
        now rewrite E.
    + apply toggleRecording_isSpeaking.
    + unfold recorder_ondataavailable.
      now destruct (0 <? List.length data)%nat.
  - rewrite M. discriminate.
Qed.

(** The flag is up only if a start event came last among the events
    that touch it. *)
Lemma run_isSpeaking (es : list Event) (w0 : World) :
  isSpeaking (comp w0) = false ->
  mounted (run es w0) = true ->
  isSpeaking (comp (run es w0)) = true ->
  exists pre u post,
    es = pre ++ UtteranceStart u :: post /\ forallb keeps_speaking post = true.
Proof.
  intros H0. induction es as [| e es IH] using rev_ind.
  - cbn. congruence.
  - rewrite run_snoc. intros M S.
    rewrite step_isSpeaking in S by exact M.
    apply step_mounted in M.
    assert (K : forall x, keeps_speaking e = true -> x = e ->
                isSpeaking (comp (run es w0)) = true ->
                exists pre u post,
                  es ++ [x] = pre ++ UtteranceStart u :: post
                  /\ forallb keeps_speaking post = true).
    { intros x Hk -> Hs. destruct (IH M Hs) as (pre & u & post & -> & Hp).
      exists pre, u, (post ++ [e]). rewrite <- app_assoc. split; [reflexivity |].
      rewrite forallb_app, Hp. cbn. now rewrite Hk. }
    destruct e; try discriminate S; try (now apply K).
    exists es, u, []. split; reflexivity.
Qed.

End TraceFacts.

Section TraceClaims.
Import JS Studio React Described.

(** Claim C5, as amended.  In every state reached by a sequence of
    events, at most one utterance is active.  A call of [speak] that is
    not a no-op (speech supported, script not blank) cancels before it
    speaks, so the first call leaves exactly its own utterance active
    and a second call in succession leaves exactly the second one.  The
    speaking flag is true only after a start event that no end event,
    error event or "Stop Preview" has followed. *)
Theorem preview_one_utterance (w0 : World) (es : list Event) :
  (List.length (active w0) <= 1)%nat -> isSpeaking (comp w0) = false ->
  let w := run es w0 in
  (List.length (active w) <= 1)%nat
  /\ (mounted w = true -> speechSupported (comp w) = true ->
      blank (script (comp w)) = false ->
      exists u1 u2,
        speak (comp w) = (comp w, [SynthCancel; SynthSpeak u1])
        /\ active (step ClickPreview w) = [(nextUtterance (platform w), u1)]
        /\ active (run [ClickPreview; ClickPreview] w)
           = [(N.succ (nextUtterance (platform w)), u2)]
        /\ text u2 = script (comp w))
  /\ (mounted w = true -> isSpeaking (comp w) = true ->
      exists pre u post,
        es = pre ++ UtteranceStart u :: post
        /\ forallb keeps_speaking post = true).
Proof.
  intros Hq Hs. cbv zeta. split; [| split].
  - now apply run_active.
  - intros M Sup Nb.
    destruct (speak_cases (comp (run es w0)))
      as [(_ & _ & u & Hu & E) | ([F | F] & _)]; [| congruence | congruence].
    exists u, u. split; [exact E |].
    assert (S1 : step ClickPreview (run es w0)
                 = mkWorld (comp (run es w0)) (captured (run es w0))
                     (apply_calls [SynthCancel; SynthSpeak u]
                        (platform (run es w0))) true).
    { unfold step. rewrite M. cbn [negb]. unfold commit. now rewrite E, M. }
    split; [rewrite S1; reflexivity |].
    split; [| exact Hu].
    cbn [run fold_left]. rewrite S1.
    unfold step. cbn [mounted negb comp]. unfold commit. rewrite E.
    reflexivity.
  - intros M S. now apply (run_isSpeaking es w0).
Qed.

Lemma preview_one_utterance_witness :
  let w0 := initialWorld (of_ascii_string "Hello world") true true in
  let es := [ClickPreview; ClickPreview; UtteranceStart 1%N] in
  (List.length (active w0) <= 1)%nat /\ isSpeaking (comp w0) = false
  /\ (List.length (active (run es w0)) <= 1)%nat
  /\ exists pre u post,
       es = pre ++ UtteranceStart u :: post
       /\ forallb keeps_speaking post = true.
Proof.
  cbv zeta.
  pose proof (preview_one_utterance
                (initialWorld (of_ascii_string "Hello world") true true)
                [ClickPreview; ClickPreview; UtteranceStart 1%N]
                (Nat.le_0_l 1) eq_refl) as T.
  cbv zeta in T. destruct T as (A & _ & C).
  split; [apply Nat.le_0_l | split; [reflexivity | split; [exact A |]]].
  apply C; reflexivity.
Defined.

(** Claim C5 as stated fails on a blank script: [speak] returns at its
    guard, and two calls in succession leave no utterance active. *)
Lemma preview_blank_script_starts_nothing :
  let w := initialWorld (of_ascii_string "   ") true true in
  active (run [ClickPreview; ClickPreview] w) = []
  /\ List.length (active (run [ClickPreview; ClickPreview] w)) <> 1%nat.
Proof.
  cbv zeta. split; [reflexivity | cbn; discriminate].
Qed.

(** Claim C1 fails on the code.  The cleanup of the effect that depends
    on [recordings] runs at every change of the list, not only at
    teardown, and revokes every URL of the list it closed over.  After
    one take, deleting it revokes its URL twice (once in the updater,
    once in the cleanup).  After two takes the URL of the first has been
    revoked while the take is still listed, and teardown revokes it a
    second time. *)
Theorem object_url_revoked_twice :
  let w0 := initialWorld [] true true in
  let take1 := [ClickRecord (Started 1%N 1000); ClickRecord (Started 1%N 1000);
                RecorderStopped 3000 3000 3000 "blob:a"] in
  let take2 := [ClickRecord (Started 2%N 4000); ClickRecord (Started 2%N 4000);
                RecorderStopped 6000 6000 6000 "blob:b"] in
  created (platform (run take1 w0)) = ["blob:a"%string]
  /\ released "blob:a" (run (take1 ++ [ClickDelete "3000"]) w0) = 2%nat
  /\ released "blob:a" (run (take1 ++ take2) w0) = 1%nat
  /\ map url (recordings (comp (run (take1 ++ take2) w0)))
     = ["blob:b"%string; "blob:a"%string]
  /\ released "blob:a" (run (take1 ++ take2 ++ [Unmount]) w0) = 2%nat.
Proof.
  run_trace.
Qed.

End TraceClaims.

(* ================================================================== *)
(** ** The estimate of the reading time                                *)
(* ================================================================== *)

Section NumberFacts.
Import JS Metrics.

(** One step of the right shift halves a mantissa that is not negative. *)
Lemma shr_1_half (mrs : shr_record) :
  0 <= shr_m mrs -> shr_m (shr_1 mrs) = shr_m mrs / 2.
Proof.
  destruct mrs as [m r s]. cbn [shr_m]. intros Hm.
  destruct m as [| p | p]; [reflexivity | | lia].
  destruct p as [p | p |]; cbn [shr_1 shr_m].
  - rewrite Pos2Z.inj_xI. apply Z.div_unique with (r := 1); lia.
  - rewrite Pos2Z.inj_xO. apply Z.div_unique with (r := 0); lia.
  - reflexivity.
Qed.

Lemma iter_shr_1 (n : positive) (mrs : shr_record) :
  0 <= shr_m mrs ->
  shr_m (iter_pos shr_1 n mrs) = shr_m mrs / 2 ^ Z.pos n.
Proof.
  revert mrs. induction n as [n IH | n IH |]; intros mrs Hm; cbn [iter_pos].
  - assert (H1 : 0 <= shr_m (shr_1 mrs))
      by (rewrite shr_1_half by exact Hm; apply Z.div_pos; lia).
    assert (H2 : 0 <= shr_m (iter_pos shr_1 n (shr_1 mrs)))
      by (rewrite IH by exact H1; apply Z.div_pos; lia).
    rewrite IH by exact H2. rewrite IH by exact H1.
    rewrite shr_1_half by exact Hm.
    rewrite !Z.div_div by lia. f_equal.
    replace (Z.pos n~1) with (1 + Z.pos n + Z.pos n) by lia.
    rewrite !Z.pow_add_r by lia. lia.
  - assert (H1 : 0 <= shr_m (iter_pos shr_1 n mrs))
      by (rewrite IH by exact Hm; apply Z.div_pos; lia).
    rewrite IH by exact H1. rewrite IH by exact Hm.
    rewrite Z.div_div by lia. f_equal.
    replace (Z.pos n~0) with (Z.pos n + Z.pos n) by lia.
    rewrite Z.pow_add_r by lia. reflexivity.
  - rewrite shr_1_half by exact Hm. reflexivity.
Qed.

Lemma digits2_pos_lower (p : positive) :
  2 ^ (Z.pos (digits2_pos p) - 1) <= Z.pos p.
Proof.
  induction p as [p IH | p IH |]; cbn [digits2_pos].
  - rewrite Pos2Z.inj_succ.
    replace (Z.succ (Z.pos (digits2_pos p)) - 1) with (1 + (Z.pos (digits2_pos p) - 1)) by lia.
    rewrite Z.pow_add_r by lia. lia.
  - rewrite Pos2Z.inj_succ.
    replace (Z.succ (Z.pos (digits2_pos p)) - 1) with (1 + (Z.pos (digits2_pos p) - 1)) by lia.
    rewrite Z.pow_add_r by lia. lia.
  - cbn. lia.
Qed.

(** Shifting a positive mantissa right by fewer bits than it has leaves
    a positive mantissa. *)
Lemma shr_positive (m : positive) (r s : bool) (e n : Z) :
  n <= Z.pos (digits2_pos m) - 1 ->
  0 < shr_m (fst (shr (Build_shr_record (Z.pos m) r s) e n)).
Proof.
  intros Hn. destruct n as [| n | n]; cbn [shr fst shr_m]; try lia.
  rewrite iter_shr_1 by (cbn; lia). cbn [shr_m].
  pose proof (digits2_pos_lower m) as L.
  assert (2 ^ Z.pos n <= 2 ^ (Z.pos (digits2_pos m) - 1))
    by (apply Z.pow_le_mono_r; lia).
  assert (1 <= Z.pos m / 2 ^ Z.pos n); [| lia].
  apply Z.div_le_lower_bound; lia.
Qed.

Lemma shr_exponent (mrs : shr_record) (e n : Z) :
  snd (shr mrs e n) = if 0 <? n then e + n else e.
Proof. destruct n; reflexivity. Qed.

(** Rounding a positive mantissa whose exponent is not below the least
    one gives a finite number or an infinity, never zero or NaN. *)
Lemma binary_round_aux_positive (sx : bool) (mx : positive) (ex : Z) (lx : location) :
  emin prec emax <= ex ->
  (exists m e, binary_round_aux prec emax sx (Z.pos mx) ex lx = S754_finite sx m e)
  \/ binary_round_aux prec emax sx (Z.pos mx) ex lx = S754_infinity sx.
Proof.
  intros He. unfold binary_round_aux.
  assert (F : forall (m : positive) (e : Z) (l : location),
             emin prec emax <= e ->
             0 < shr_m (fst (shr_fexp prec emax (Z.pos m) e l))
             /\ emin prec emax <= snd (shr_fexp prec emax (Z.pos m) e l)).
  { intros m e l Hme. unfold shr_fexp. split.
    - destruct l as [| []]; cbn [shr_record_of_loc]; apply shr_positive;
        unfold fexp, emin, prec, emax in *; cbn [Zdigits2]; lia.
    - rewrite shr_exponent.
      destruct (0 <? _) eqn:P; [apply Z.ltb_lt in P; lia | lia]. }
  destruct (F mx ex lx He) as [M1 E1].
  destruct (shr_fexp prec emax (Z.pos mx) ex lx) as [mrs' e'] eqn:S1.
  cbn [fst snd] in M1, E1.
  assert (R : 0 < round_nearest_even (shr_m mrs') (loc_of_shr_record mrs')).
  { unfold round_nearest_even.
    destruct (loc_of_shr_record mrs') as [| []]; try lia.
    destruct (Z.even (shr_m mrs')); lia. }
  destruct (round_nearest_even (shr_m mrs') (loc_of_shr_record mrs')) as [| m1 | m1];
    try lia.
  destruct (F m1 e' loc_Exact E1) as [M2 E2].
  destruct (shr_fexp prec emax (Z.pos m1) e' loc_Exact) as [mrs'' e''].
  cbn [fst snd] in M2, E2.
  destruct (shr_m mrs'') as [| m2 | m2]; try lia.
  destruct (e'' <=? emax - prec); [left; eauto | right; reflexivity].
Qed.

Lemma number_of_Z_positive (p : positive) :
  (exists m e, number_of_Z (Z.pos p) = S754_finite false m e)
  \/ number_of_Z (Z.pos p) = S754_infinity false.
Proof.
  unfold number_of_Z, binary_normalize, binary_round.
  destruct (shl_align p 0 _) as [mz ez] eqn:A.
  apply binary_round_aux_positive.
  unfold shl_align in A.
  pose proof (Z.le_max_r (Z.pos (digits2_pos p) + 0 - prec) (emin prec emax)) as B.
  fold (fexp prec emax (Z.pos (digits2_pos p) + 0)) in B.
  destruct (fexp prec emax (Z.pos (digits2_pos p) + 0) - 0) eqn:D;
    injection A as <- <-; try exact B; unfold emin, prec, emax; lia.
Qed.

(** [nearest_scaled] picks the integer nearest to [m * 2^e * 10^f], the
    larger of two. *)
Lemma nearest_scaled_nearest (f : nat) (m : positive) (e : Z) :
  let n := nearest_scaled f m e in
  (0 <= e -> n = Z.pos m * 2 ^ e * 10 ^ Z.of_nat f)
  /\ (e < 0 ->
      (2 * n - 1) * 2 ^ (- e) <= 2 * (Z.pos m * 10 ^ Z.of_nat f)
      < (2 * n + 1) * 2 ^ (- e)).
Proof.
  cbv zeta. unfold nearest_scaled. split; intros He.
  - destruct (0 <=? e) eqn:L; [reflexivity | apply Z.leb_gt in L; lia].
  - destruct (0 <=? e) eqn:L; [apply Z.leb_le in L; lia |].
    assert (P : 0 < 2 ^ (- e)) by (apply Z.pow_pos_nonneg; lia).
    pose proof (Math_round_div_nearest (Z.pos m * 10 ^ Z.of_nat f) _ P).
    lia.
Qed.

End NumberFacts.

Section EstimateClaims.
Import JS Metrics Described.

(** Claim C3, as amended.  The figure shown is [toFixed 1] of the double
    [wordCount S / r], with 0 put in its place when that quotient is NaN
    or a zero.  For a rate of zero the figure is ["0.0"] only when the
    script has no word: with one word or more the quotient is an
    infinity and the figure is ["Infinity"] (["-Infinity"] for the rate
    [-0]).  For a rate that is NaN the figure is ["0.0"].  For the script
    "Hello world" and the rate 1.0 the word count is 2 and the figure is
    ["2.0"].  For a finite quotient below 1e21 the figure is the sign and
    the digits of the integer nearest to ten times the quotient, with a
    point before the last digit. *)
Theorem estimatedSeconds_display (S : jsstring) (r : number) :
  let q := div (number_of_Z (Z.of_nat (wordCount S))) r in
  estimatedSeconds S r = (if truthy_number q then toFixed 1 q else Text "0.0")
  /\ (forall s, r = S754_zero s ->
        estimatedSeconds S r
        = if (wordCount S =? 0)%nat then Text "0.0"
          else Text (if s then "-Infinity" else "Infinity"))
  /\ (r = S754_nan -> estimatedSeconds S r = Text "0.0")
  /\ (forall sg m e, q = S754_finite sg m e -> at_least_1e21 m e = false ->
      let n := nearest_scaled 1 m e in
      estimatedSeconds S r
      = Text ((if sg then "-" else EmptyString) ++ point_digits 1 n)
      /\ (0 <= e -> n = Z.pos m * 2 ^ e * 10)
      /\ (e < 0 ->
          (2 * n - 1) * 2 ^ (- e) <= 2 * (Z.pos m * 10) < (2 * n + 1) * 2 ^ (- e)))
  /\ wordCount (of_ascii_string "Hello world") = 2%nat
  /\ estimatedSeconds (of_ascii_string "Hello world") (number_of_Z 1)
     = Text "2.0".
Proof.
  cbv zeta. unfold estimatedSeconds, or_else.
  split; [| split; [| split; [| split; [| split]]]].
  - destruct (truthy_number _); reflexivity.
  - intros s ->. destruct (wordCount S) as [| n]; [now destruct s |].
    cbn [Nat.eqb Z.of_nat].
    destruct (number_of_Z_positive (Pos.of_succ_nat n)) as [(m & e & E) | E];
      rewrite E; now destruct s.
  - intros ->.
    assert (E : div (number_of_Z (Z.of_nat (wordCount S))) S754_nan = S754_nan)
      by (unfold div; now destruct (number_of_Z _)).
    rewrite E. reflexivity.
  - intros sg m e E B. rewrite E. cbn [truthy_number toFixed]. rewrite B.
    split; [reflexivity |].
    exact (nearest_scaled_nearest 1 m e).
  - vm_compute. reflexivity.
  - vm_compute. reflexivity.
Qed.

Lemma estimatedSeconds_display_witness :
  S754_zero false = S754_zero false
  /\ estimatedSeconds (of_ascii_string "Hello world") (S754_zero false)
     = if (wordCount (of_ascii_string "Hello world") =? 0)%nat
       then Text "0.0" else Text "Infinity".
Proof.
  split; [reflexivity |].
  exact (proj1 (proj2 (estimatedSeconds_display
                         (of_ascii_string "Hello world") (S754_zero false)))
           false eq_refl).
Defined.

(** Claim C3 as stated fails for the rate 0: the figure for a script of
    two words is ["Infinity"], not ["0.0"]. *)
Lemma estimatedSeconds_rate_zero :
  estimatedSeconds (of_ascii_string "Hello world") (number_of_Z 0)
  = Text "Infinity"
  /\ estimatedSeconds (of_ascii_string "Hello world") (number_of_Z 0)
     <> Text "0.0".
Proof.
  assert (E : estimatedSeconds (of_ascii_string "Hello world") (number_of_Z 0)
              = Text "Infinity") by (vm_compute; reflexivity).
  rewrite E. split; [reflexivity | discriminate].
Qed.

End EstimateClaims.

(* ================================================================== *)
(** ** Further properties: the metrics                                 *)
(* ================================================================== *)

Section MoreWordCount.
Import JS Metrics Described.

Lemma tokens_trimStart (s : jsstring) : tokens (trimStart s) = tokens s.
Proof.
  unfold tokens. induction s as [| c s IH]; [reflexivity |].
  cbn [trimStart tokens_from]. destruct (isWhiteSpace c) eqn:W; [exact IH |].
  cbn [tokens_from]. now rewrite W.
Qed.

Lemma tokens_from_snoc_ws (s cur : jsstring) (w : codeunit) :
  isWhiteSpace w = true -> tokens_from cur (s ++ [w]) = tokens_from cur s.
Proof.
  intros W. revert cur. induction s as [| c s IH]; intros cur.
  - cbn. rewrite W. now destruct cur.
  - cbn [app tokens_from]. destruct (isWhiteSpace c); [destruct cur |];
      now rewrite IH.
Qed.

Lemma tokens_trimEnd (s : jsstring) : tokens (trimEnd s) = tokens s.
Proof.
  unfold trimEnd. rewrite <- (rev_involutive s) at 2.
  induction (rev s) as [| c r IH]; [reflexivity |].
  cbn [trimStart rev]. destruct (isWhiteSpace c) eqn:W; [| reflexivity].
  rewrite IH. unfold tokens. now rewrite tokens_from_snoc_ws.
Qed.

Lemma tokens_trim (s : jsstring) : tokens (trim s) = tokens s.
Proof. unfold trim. now rewrite tokens_trimEnd, tokens_trimStart. Qed.

(** The count is the number of tokens of the script as it stands. *)
Lemma wordCount_length_tokens (s : jsstring) :
  wordCount s = List.length (tokens s).
Proof.
  rewrite <- tokens_trim. unfold wordCount.
  destruct (trim_cases s) as [[E _] | (c & rest & E & Hc & Hn & _)]; rewrite E.
  - reflexivity.
  - cbn [truthy_string negb]. now rewrite split_ws_trimmed.
Qed.

Lemma tokens_from_app_ws (a b cur : jsstring) (w : codeunit) :
  isWhiteSpace w = true ->
  tokens_from cur (a ++ w :: b) = tokens_from cur a ++ tokens b.
Proof.
  intros W. revert cur. induction a as [| c a IH]; intros cur.
  - cbn [app tokens_from]. rewrite W. now destruct cur.
  - cbn [app tokens_from]. destruct (isWhiteSpace c); [destruct cur |];
      now rewrite IH.
Qed.

Lemma tokens_from_length (s cur : jsstring) :
  (2 * List.length (tokens_from cur s)
   <= List.length s + match cur with [] => 1 | _ :: _ => 2 end)%nat.
Proof.
  revert cur. induction s as [| c s IH]; intros cur.
  - destruct cur; cbn; lia.
  - cbn [tokens_from]. destruct (isWhiteSpace c).
    + destruct cur; cbn [List.length]; specialize (IH []); cbn in IH; lia.
    + specialize (IH (c :: cur)). cbn [List.length] in *. destruct cur; lia.
Qed.

(** Words on the two sides of a white-space unit are counted
    separately: the count of [a ++ w :: b] is the sum of the counts. *)
Theorem wordCount_across_whitespace (a b : jsstring) (w : codeunit) :
  isWhiteSpace w = true ->
  wordCount (a ++ w :: b) = (wordCount a + wordCount b)%nat.
Proof.
  intros W. rewrite !wordCount_length_tokens. unfold tokens at 1.
  rewrite tokens_from_app_ws by exact W. apply length_app.
Qed.

Lemma wordCount_across_whitespace_witness :
  isWhiteSpace 10%N = true
  /\ wordCount (of_ascii_string "one two" ++ 10%N :: of_ascii_string " three")
     = (wordCount (of_ascii_string "one two")
        + wordCount (of_ascii_string " three"))%nat.
Proof.
  split; [reflexivity |].
  apply (wordCount_across_whitespace (of_ascii_string "one two")
           (of_ascii_string " three") 10%N). reflexivity.
Defined.

(** White space around a script does not change its count. *)
Theorem wordCount_ignores_surrounding_whitespace (lead s trail : jsstring) :
  forallb isWhiteSpace lead = true -> forallb isWhiteSpace trail = true ->
  wordCount (lead ++ s ++ trail) = wordCount s.
Proof.
  intros L T. rewrite !wordCount_length_tokens. f_equal.
  assert (A : forall x, tokens (lead ++ x) = tokens x).
  { intros x. induction lead as [| c l IH]; [reflexivity |].
    cbn [forallb] in L. apply andb_prop in L. destruct L as [Wc Wl].
    unfold tokens in *. cbn [app tokens_from]. rewrite Wc. now apply IH. }
  rewrite A. clear A L.
  induction trail as [| c t IH] using rev_ind; [now rewrite app_nil_r |].
  rewrite forallb_app in T. apply andb_prop in T. destruct T as [Wt Wc].
  cbn in Wc. rewrite andb_true_r in Wc.
  rewrite app_assoc. unfold tokens in *.
  rewrite tokens_from_snoc_ws by exact Wc. now apply IH.
Qed.

Lemma wordCount_ignores_surrounding_whitespace_witness :
  forallb isWhiteSpace [32%N; 9%N] = true
  /\ forallb isWhiteSpace [10%N] = true
  /\ wordCount ([32%N; 9%N] ++ of_ascii_string "a b" ++ [10%N])
     = wordCount (of_ascii_string "a b").
Proof.
  split; [reflexivity | split; [reflexivity |]].
  apply (wordCount_ignores_surrounding_whitespace [32%N; 9%N]
           (of_ascii_string "a b") [10%N]); reflexivity.
Defined.

(** A script of [n] code units has at most [(n + 1) / 2] words. *)
Theorem wordCount_bound (s : jsstring) :
  (2 * wordCount s <= List.length s + 1)%nat.
Proof.
  rewrite wordCount_length_tokens. exact (tokens_from_length s []).
Qed.

End MoreWordCount.

Section MoreDuration.
Import JS Metrics Described Ledger.
Open Scope string_scope.

Lemma splitAtColon_append (m ss : string) :
  splitAtColon m = None -> splitAtColon (m ++ ":" ++ ss) = Some (m, ss).
Proof.
  induction m as [| c m IH]; intros H; [reflexivity |].
  cbn [append splitAtColon] in *.
  destruct (Ascii.eqb c ":"); [discriminate |].
  destruct (splitAtColon m) as [[a b] |]; [discriminate |].
  now rewrite IH.
Qed.

Lemma digits_without_colon (s : string) (d : Decimal.uint) :
  NilEmpty.uint_of_string s = Some d -> splitAtColon s = None.
Proof.
  revert d. induction s as [| c s IH]; intros d H; [reflexivity |].
  cbn [NilEmpty.uint_of_string splitAtColon] in *.
  destruct (NilEmpty.uint_of_string s) as [d0 |]; [| discriminate].
  rewrite (IH d0 eq_refl).
  apply uint_of_char_spec in H.
  assert (E : Ascii.eqb c ":" = false).
  { apply Ascii.eqb_neq. intros ->.
    repeat (destruct H as [[H _] | H]; [discriminate H |]).
    destruct H as [H _]. discriminate H. }
  now rewrite E.
Qed.

Lemma readDecimal_without_colon (s : string) (n : N) :
  readDecimal s = Some n -> splitAtColon s = None.
Proof.
  unfold readDecimal, NilZero.uint_of_string.
  destruct s as [| c s]; [reflexivity |].
  destruct (NilEmpty.uint_of_string (String c s)) as [d |] eqn:E;
    [| discriminate].
  intros _. exact (digits_without_colon _ _ E).
Qed.

(** Reading the formatted duration back gives the whole seconds it was
    made from, for every integer: the minutes are not wrapped at 60 and
    a negative duration reads as 0. *)
Theorem formattedDuration_readDuration (d : Z) :
  readDuration (formattedDuration d) = Some (Z.max 0 (Math_round_div d 1000)).
Proof.
  unfold formattedDuration, Math_max, Math_floor_div, rem.
  set (t := Z.max 0 (Math_round_div d 1000)).
  assert (Ht : 0 <= t) by (unfold t; lia).
  rewrite Z.rem_mod_nonneg by lia.
  assert (Hm : 0 <= t mod 60 < 100)
    by (pose proof (Z.mod_pos_bound t 60 ltac:(lia)); lia).
  destruct (padStart_two_digits (t mod 60) Hm) as [_ R].
  pose proof (readDecimal_Number_toString (t / 60)
                ltac:(apply Z.div_pos; lia)) as M.
  unfold readDuration.
  rewrite splitAtColon_append by exact (readDecimal_without_colon _ _ M).
  rewrite M, R. f_equal.
  rewrite !Z2N.id by (try apply Z.div_pos; lia).
  pose proof (Z.div_mod t 60 ltac:(lia)). lia.
Qed.

End MoreDuration.

Section MoreEstimate.
Import JS Metrics Described.
Open Scope string_scope.

Lemma point_not_NaN (a b : string) : a ++ String "." b <> "NaN".
Proof.
  destruct a as [| c1 [| c2 [| c3 [| c4 a]]]]; cbn; try discriminate.
Qed.

Lemma blank_wordCount (s : jsstring) : blank s = true -> wordCount s = 0%nat.
Proof.
  intros B. unfold wordCount.
  destruct (trim_cases s) as [[E _] | (c & rest & _ & _ & _ & B')];
    [now rewrite E | congruence].
Qed.

Lemma estimatedSeconds_blank (S : jsstring) (r : number) :
  blank S = true -> estimatedSeconds S r = Text "0.0".
Proof.
  intros B. unfold estimatedSeconds, or_else. rewrite (blank_wordCount S B).
  destruct r as [sr | sr | | sr m e]; reflexivity.
Qed.

(** The figure never reads ["NaN"], whatever the script and the rate;
    for a blank script it is ["0.0"] at every rate, the rates 0, NaN and
    the infinities included. *)
Theorem estimatedSeconds_never_NaN (S : jsstring) (r : number) :
  estimatedSeconds S r <> Text "NaN"
  /\ (blank S = true -> estimatedSeconds S r = Text "0.0").
Proof.
  unfold estimatedSeconds, or_else. split.
  - destruct (div _ r) as [sq | sq | | sq m e]; cbn [truthy_number];
      try (vm_compute; discriminate).
    + destruct sq; cbn; discriminate.
    + cbn [toFixed]. destruct (at_least_1e21 m e); [discriminate |].
      intros [= H]. unfold point_digits in H.
      destruct sq; cbn [append] in H; [discriminate H |].
      exact (point_not_NaN _ _ H).
  - intros B. fold (or_else (div (number_of_Z (Z.of_nat (wordCount S))) r)
                            (number_of_Z 0)).
    exact (estimatedSeconds_blank S r B).
Qed.

Lemma estimatedSeconds_never_NaN_witness :
  blank [32%N; 10%N] = true
  /\ estimatedSeconds [32%N; 10%N] S754_nan = Text "0.0".
Proof.
  split; [reflexivity |].
  apply (estimatedSeconds_never_NaN [32%N; 10%N] S754_nan). reflexivity.
Defined.

End MoreEstimate.

(* ================================================================== *)
(** ** Further properties: voices and the preview                      *)
(* ================================================================== *)

Section MoreVoices.
Import JS Studio React Described Rest.

Lemma jsstring_eqb_eq (a b : jsstring) : jsstring_eqb a b = true <-> a = b.
Proof.
  revert b. induction a as [| x a IH]; intros [| y b]; cbn;
    try (split; [discriminate | discriminate]); [tauto |].
  rewrite andb_true_iff, N.eqb_eq, IH. split.
  - intros [-> ->]. reflexivity.
  - intros [= -> ->]. auto.
Qed.

Lemma starts_with_prefix (pat s : jsstring) :
  starts_with pat s = true <-> exists post, s = pat ++ post.
Proof.
  revert s. induction pat as [| p pat IH]; intros s.
  - cbn. split; [intros _; now exists s | reflexivity].
  - destruct s as [| c s]; cbn [starts_with].
    + split; [discriminate | intros [post E]; discriminate E].
    + rewrite andb_true_iff, N.eqb_eq, IH. split.
      * intros [-> [post ->]]. now exists post.
      * intros [post E]. cbn in E. injection E as -> ->. split; eauto.
Qed.

Lemma includes_infix (pat s : jsstring) :
  includes pat s = true <-> exists pre post, s = pre ++ pat ++ post.
Proof.
  induction s as [| c s IH].
  - cbn [includes]. rewrite orb_false_r, starts_with_prefix. split.
    + intros [post E]. now exists [], post.
    + intros (pre & post & E). destruct pre; [now exists post |].
      discriminate E.
  - cbn [includes]. rewrite orb_true_iff, starts_with_prefix, IH. split.
    + intros [[post E] | (pre & post & E)].
      * now exists [], post.
      * exists (c :: pre), post. cbn. now rewrite E.
    + intros ([| x pre] & post & E).
      * left. now exists post.
      * right. cbn in E. injection E as -> ->. now exists pre, post.
Qed.

(** A language tag is preferred exactly when "en-IN" or "en-US" occurs
    in it, at any position and in that letter case. *)
Theorem preferredLocale_occurrence (l : jsstring) :
  preferredLocale l = true
  <-> exists pre post,
        l = pre ++ of_ascii_string "en-IN" ++ post
        \/ l = pre ++ of_ascii_string "en-US" ++ post.
Proof.
  unfold preferredLocale. rewrite orb_true_iff, !includes_infix. split.
  - intros [(pre & post & E) | (pre & post & E)]; exists pre, post; auto.
  - intros (pre & post & [E | E]); [left | right]; now exists pre, post.
Qed.

Lemma find_first {A : Type} (f : A -> bool) (pre : list A) (v : A)
  (post : list A) :
  (forall x, In x pre -> f x = false) -> f v = true ->
  find f (pre ++ v :: post) = Some v.
Proof.
  intros Hpre Hv. induction pre as [| a pre IH]; cbn.
  - now rewrite Hv.
  - rewrite (Hpre a (or_introl eq_refl)). apply IH.
    intros x Hx. apply Hpre. now right.
Qed.

Lemma find_nobody {A : Type} (f : A -> bool) (l : list A) :
  (forall x, In x l -> f x = false) -> find f l = None.
Proof.
  intros H. destruct (find f l) as [y |] eqn:E; [| reflexivity].
  apply find_some in E. destruct E as [Hin Hy].
  rewrite (H y Hin) in Hy. discriminate.
Qed.

Lemma updateVoices_selected_listed (first : Voice) (others : list Voice)
  (st : State) :
  selectedVoice st = [] ->
  voices (updateVoices (first :: others) st) = first :: others
  /\ In (selectedVoice (updateVoices (first :: others) st))
        (map name (first :: others)).
Proof.
  intros Hsel. unfold updateVoices. rewrite Hsel.
  cbn [truthy_string negb]. split; [reflexivity |].
  cbn [selectedVoice setSelectedVoice].
  destruct (find _ (first :: others)) as [v |] eqn:F; [| now left].
  destruct (truthy_string (name v)); [| now left].
  apply find_some in F. apply in_map. exact (proj1 F).
Qed.

(** With no voice selected yet and a non-empty list reported by the
    platform, [updateVoices] stores the list and selects the name of
    the first voice whose language tag is preferred, when that name is
    not empty; when no tag is preferred it selects the name of the
    first voice.  The selection is always the name of a reported
    voice. *)
Theorem updateVoices_selects (first : Voice) (others : list Voice) (st : State) :
  selectedVoice st = [] ->
  let loaded := first :: others in
  let st' := updateVoices loaded st in
  voices st' = loaded
  /\ In (selectedVoice st') (map name loaded)
  /\ (forall pre v post,
        loaded = pre ++ v :: post ->
        (forall x, In x pre -> preferredLocale (lang x) = false) ->
        preferredLocale (lang v) = true -> name v <> [] ->
        selectedVoice st' = name v)
  /\ ((forall x, In x loaded -> preferredLocale (lang x) = false) ->
      selectedVoice st' = name first).
Proof.
  intros Hsel. cbv zeta.
  destruct (updateVoices_selected_listed first others st Hsel) as [V I].
  split; [exact V |]. split; [exact I |].
  unfold updateVoices. rewrite Hsel. cbn [truthy_string negb]. split.
  - intros pre v post E Hpre Hv Hname.
    rewrite E, (find_first _ pre v post Hpre Hv).
    cbn [selectedVoice setSelectedVoice].
    destruct (name v); [congruence | reflexivity].
  - intros Hnone. rewrite (find_nobody _ _ Hnone). reflexivity.
Qed.

Lemma updateVoices_selects_witness :
  let hi := mkVoice (of_ascii_string "Lekha") (of_ascii_string "hi-IN") in
  let us := mkVoice (of_ascii_string "Samantha") (of_ascii_string "en-US") in
  let st := initialState [] true true in
  selectedVoice st = []
  /\ selectedVoice (updateVoices [hi; us] st) = of_ascii_string "Samantha".
Proof.
  cbv zeta. split; [reflexivity |].
  apply (proj1 (proj2 (proj2
           (updateVoices_selects
              (mkVoice (of_ascii_string "Lekha") (of_ascii_string "hi-IN"))
              [mkVoice (of_ascii_string "Samantha") (of_ascii_string "en-US")]
              (initialState [] true true) eq_refl)))
           [mkVoice (of_ascii_string "Lekha") (of_ascii_string "hi-IN")]
           (mkVoice (of_ascii_string "Samantha") (of_ascii_string "en-US"))
           []).
  - reflexivity.
  - intros x [<- | []]. reflexivity.
  - reflexivity.
  - discriminate.
Defined.

(** [updateVoices] never replaces a selection that is not empty, and
    running it again on the same list changes nothing. *)
Theorem updateVoices_stable (loaded : list Voice) (st : State) :
  (selectedVoice st <> [] ->
   selectedVoice (updateVoices loaded st) = selectedVoice st)
  /\ updateVoices loaded (updateVoices loaded st) = updateVoices loaded st.
Proof.
  unfold updateVoices. split.
  - intros H. destruct loaded as [| first others]; [reflexivity |].
    destruct (selectedVoice st) as [| c sel] eqn:S; [congruence |].
    cbn [truthy_string negb selectedVoice setVoices]. exact S.
  - destruct loaded as [| first others]; [reflexivity |].
    destruct (selectedVoice st) as [| c sel] eqn:S; cbn [truthy_string negb].
    + cbn [selectedVoice setSelectedVoice setVoices].
      destruct (find _ (first :: others)) as [v |];
        [destruct (name v) as [| c n] eqn:Nv; cbn [truthy_string] |];
        try (destruct (name first); reflexivity); reflexivity.
    + cbn [selectedVoice setVoices]. rewrite S. reflexivity.
Qed.

Lemma updateVoices_stable_witness :
  let v := mkVoice (of_ascii_string "Samantha") (of_ascii_string "en-US") in
  let st := Rest.setSelectedVoice (of_ascii_string "Lekha")
              (initialState [] true true) in
  selectedVoice st <> []
  /\ selectedVoice (updateVoices [v] st) = of_ascii_string "Lekha".
Proof.
  cbv zeta. split; [discriminate |].
  apply (updateVoices_stable
           [mkVoice (of_ascii_string "Samantha") (of_ascii_string "en-US")]
           (Rest.setSelectedVoice (of_ascii_string "Lekha")
              (initialState [] true true))).
  discriminate.
Defined.

(** After the automatic selection, a preview that goes ahead carries a
    voice: one of the reported voices, with the selected name. *)
Theorem updateVoices_then_speak (first : Voice) (others : list Voice)
  (st : State) :
  selectedVoice st = [] -> speechSupported st = true ->
  blank (script st) = false ->
  let st' := updateVoices (first :: others) st in
  exists v u,
    In v (first :: others) /\ name v = selectedVoice st'
    /\ speak st' = (st', [SynthCancel; SynthSpeak u])
    /\ u_voice u = Some v /\ text u = script st.
Proof.
  intros Hsel Hsup Hb. cbv zeta.
  destruct (updateVoices_selected_listed first others st Hsel) as [V I].
  set (st' := updateVoices (first :: others) st) in *.
  assert (Fs : speechSupported st' = true /\ script st' = script st).
  { unfold st', updateVoices. rewrite Hsel. cbn. now split. }
  destruct Fs as [Fs Fc].
  apply in_map_iff in I. destruct I as (v0 & Hn & Hin).
  destruct (find (fun v => jsstring_eqb (name v) (selectedVoice st'))
                 (voices st')) as [v |] eqn:F.
  - destruct (find_some _ _ F) as [Fin Feq].
    apply jsstring_eqb_eq in Feq. rewrite V in Fin.
    exists v, (mkUtterance (script st') (pitch st') (rate st') (Some v)).
    split; [exact Fin |]. split; [exact Feq |].
    split; [| split; [reflexivity | exact Fc]].
    unfold speak. rewrite Fs, F. cbn [negb orb].
    destruct (trim_cases (script st')) as [[_ B] | (c & rest & E & _)];
      [congruence |].
    rewrite E. reflexivity.
  - exfalso. rewrite V in F.
    pose proof (find_none _ _ F v0 Hin) as C. cbn beta in C.
    rewrite Hn in C.
    assert (T : jsstring_eqb (selectedVoice st') (selectedVoice st') = true)
      by now apply jsstring_eqb_eq.
    congruence.
Qed.

Lemma updateVoices_then_speak_witness :
  let us := mkVoice (of_ascii_string "Samantha") (of_ascii_string "en-US") in
  let st := initialState (of_ascii_string "Hello") true true in
  selectedVoice st = [] /\ speechSupported st = true
  /\ blank (script st) = false
  /\ exists v u,
       In v [us] /\ name v = selectedVoice (updateVoices [us] st)
       /\ speak (updateVoices [us] st)
          = (updateVoices [us] st, [SynthCancel; SynthSpeak u])
       /\ u_voice u = Some v /\ text u = script st.
Proof.
  cbv zeta. split; [reflexivity | split; [reflexivity | split; [reflexivity |]]].
  apply (updateVoices_then_speak
           (mkVoice (of_ascii_string "Samantha") (of_ascii_string "en-US")) []
           (initialState (of_ascii_string "Hello") true true));
    reflexivity.
Defined.

End MoreVoices.

Section MorePreview.
Import JS Studio React Described Rest.

(** The hint under the heading tells whether a click on "Preview
    Voiceover" does anything: [speak] returns without a call exactly
    when the hint is one of the two warnings; and the hint says
    "Playing" only while the speaking flag is up. *)
Theorem speakingHint_tells_preview (st : State) :
  (speak st = (st, [])
   <-> speakingHint st = hintUnsupported \/ speakingHint st = hintEmpty)
  /\ (speakingHint st = hintPlaying -> isSpeaking st = true).
Proof.
  unfold speak, speakingHint.
  destruct (speechSupported st); cbn [negb orb].
  - destruct (truthy_string (trim (script st))); cbn [negb].
    + destruct (isSpeaking st); split;
        try (split; [intros [= ] | intros [H | H]; discriminate H]);
        try reflexivity; intros H; discriminate H.
    + split; [split; [now right | reflexivity] | intros H; discriminate H].
  - split; [split; [now left | reflexivity] | intros H; discriminate H].
Qed.

(** No handler writes the two capability flags. *)
Lemma step_capabilities (e : Event) (w : World) :
  speechSupported (comp (step e w)) = speechSupported (comp w)
  /\ recordingSupported (comp (step e w)) = recordingSupported (comp w).
Proof.
  unfold step. destruct (mounted w); cbn [negb]; [| now split].
  destruct e; unfold commit, commit_recordings; cbn [comp fst];
    try (split; reflexivity).
  - destruct (speak_cases (comp w)) as [(_ & _ & u & _ & E) | (_ & E)];
      rewrite E; now split.
  - unfold toggleRecording.
    destruct (recordingSupported (comp w)) eqn:R; cbn [negb fst];
      [| now split].
    destruct (isRecording (comp w)); cbn [negb fst]; [now split |].
    destruct c; cbn; now split.
  - unfold recorder_ondataavailable.
    destruct (0 <? List.length data)%nat; now split.
Qed.

Lemma run_capabilities (es : list Event) (w : World) :
  speechSupported (comp (run es w)) = speechSupported (comp w)
  /\ recordingSupported (comp (run es w)) = recordingSupported (comp w).
Proof.
  revert w. induction es as [| e es IH]; intros w; [now split |].
  change (run (e :: es) w) with (run es (step e w)).
  destruct (IH (step e w)) as [A B].
  destruct (step_capabilities e w) as [C D]. split; congruence.
Qed.

(** "Stop Preview" is idempotent: a second click changes nothing; after
    the first no utterance is active and the speaking flag is down. *)
Theorem stop_preview_idempotent (w : World) :
  step ClickStopPreview (step ClickStopPreview w) = step ClickStopPreview w
  /\ (mounted w = true ->
      active (step ClickStopPreview w) = []
      /\ isSpeaking (comp (step ClickStopPreview w)) = false).
Proof.
  unfold step. destruct (mounted w) eqn:M; cbn [negb].
  - unfold commit, cancelSpeech. cbn [mounted negb fst snd comp platform].
    rewrite M. cbn [negb]. split; [reflexivity | intros _; now split].
  - rewrite M. split; [reflexivity | discriminate].
Qed.

Lemma stop_preview_idempotent_witness :
  let w := run [ClickPreview; UtteranceStart 0%N]
               (initialWorld (of_ascii_string "Hello") true true) in
  mounted w = true
  /\ active (step ClickStopPreview w) = []
  /\ isSpeaking (comp (step ClickStopPreview w)) = false.
Proof.
  cbv zeta. split; [reflexivity |].
  apply (stop_preview_idempotent
           (run [ClickPreview; UtteranceStart 0%N]
                (initialWorld (of_ascii_string "Hello") true true))).
  reflexivity.
Defined.

(** Where speech synthesis is unsupported, no sequence of events ever
    puts an utterance in the queue. *)
Theorem unsupported_speech_stays_silent
  (es : list Event) (script0 : jsstring) (recordingOk : bool) :
  active (run es (initialWorld script0 false recordingOk)) = [].
Proof.
  assert (G : forall es w,
             speechSupported (comp w) = false -> active w = [] ->
             active (run es w) = []).
  { clear es. induction es as [| e es IH]; intros w S Q; [exact Q |].
    change (run (e :: es) w) with (run es (step e w)). apply IH.
    - now rewrite (proj1 (step_capabilities e w)).
    - unfold step, active in *. destruct (mounted w); cbn [negb]; [| exact Q].
      destruct e; unfold commit, commit_recordings;
        cbn [platform fst snd apply_calls fold_left]; try exact Q;
        try reflexivity.
      + destruct (speak_cases (comp w)) as [(S' & _) | (_ & E)];
          [congruence | now rewrite E].
      + cbn [dequeue queue]. now rewrite Q.
      + cbn [dequeue queue]. now rewrite Q.
      + fold (apply_calls (snd (toggleRecording c (comp w))) (platform w)).
        rewrite apply_calls_queue; [exact Q | apply toggleRecording_calls].
      + rewrite apply_calls_app. apply effect_cleanup_queue.
      + rewrite apply_calls_app. apply effect_cleanup_queue.
      + apply effect_cleanup_queue. }
  apply G; reflexivity.
Qed.

Lemma speakingHint_tells_preview_witness :
  let st := setIsSpeaking true
              (initialState (of_ascii_string "Hello") true true) in
  speakingHint st = hintPlaying /\ isSpeaking st = true.
Proof.
  cbv zeta.
  assert (H : speakingHint
                (setIsSpeaking true
                   (initialState (of_ascii_string "Hello") true true))
              = hintPlaying) by reflexivity.
  split; [exact H |].
  exact (proj2 (speakingHint_tells_preview
                  (setIsSpeaking true
                     (initialState (of_ascii_string "Hello") true true))) H).
Defined.

(** Picking a blank text, as "Clear" does with the empty one, turns the
    preview off: the next [speak] makes no call, the word count is 0,
    the estimate reads ["0.0"] at every rate and, where speech is
    supported, the hint asks for text. *)
Theorem blank_script_disables_preview (text0 : jsstring) (st : State) :
  blank text0 = true ->
  let st' := handlePickIdea text0 st in
  clearScript st = handlePickIdea [] st
  /\ speak st' = (st', [])
  /\ Metrics.wordCount (script st') = 0%nat
  /\ (forall r, Metrics.estimatedSeconds (script st') r = Text "0.0")
  /\ (speechSupported st = true -> speakingHint st' = hintEmpty).
Proof.
  intros B. cbv zeta. unfold handlePickIdea.
  assert (T : trim text0 = []).
  { destruct (trim_cases text0) as [[E _] | (c & rest & _ & _ & _ & B')];
      [exact E | congruence]. }
  split; [reflexivity |]. split; [| split; [| split]].
  - unfold speak. cbn [script set_script]. rewrite T. cbn.
    now rewrite orb_true_r.
  - unfold Metrics.wordCount. cbn [script set_script]. now rewrite T.
  - intros r. now apply estimatedSeconds_blank.
  - intros S. unfold speakingHint. cbn [script set_script speechSupported].
    now rewrite S, T.
Qed.

Lemma blank_script_disables_preview_witness :
  let st := initialState (of_ascii_string "Hello") true true in
  blank [] = true /\ speak (clearScript st) = (clearScript st, []).
Proof.
  cbv zeta. split; [reflexivity |].
  apply (blank_script_disables_preview []
           (initialState (of_ascii_string "Hello") true true)). reflexivity.
Defined.

End MorePreview.

(* ================================================================== *)
(** ** Further properties: the recording booth                         *)
(* ================================================================== *)

Section MoreBooth.
Import JS Studio React Described Rest Ledger.

Lemma toggleRecording_recordings (c : Capture) (st : State) :
  recordings (fst (toggleRecording c st)) = recordings st.
Proof.
  unfold toggleRecording.
  destruct (recordingSupported st); [| reflexivity].
  destruct (isRecording st); cbn [negb]; [reflexivity |].
  destruct c; reflexivity.
Qed.

Lemma ondataavailable_buffer (datas : list Blob) (st : State) :
  audioChunksRef (fold_left (fun s b => recorder_ondataavailable b s) datas st)
  = audioChunksRef st ++ kept_chunks datas.
Proof.
  revert st. induction datas as [| b datas IH]; intros st; cbn [fold_left].
  - cbn. now rewrite app_nil_r.
  - rewrite IH. unfold kept_chunks, recorder_ondataavailable. cbn [filter].
    destruct (0 <? List.length b)%nat; [| reflexivity].
    cbn. now rewrite <- app_assoc.
Qed.

Lemma concat_kept_chunks (datas : list Blob) :
  List.concat (kept_chunks datas) = List.concat datas.
Proof.
  unfold kept_chunks. induction datas as [| b datas IH]; [reflexivity |].
  destruct b as [| x b]; simpl; [exact IH | now rewrite IH].
Qed.

(** The audio of a take is the concatenation, in order of arrival, of
    the chunks delivered since its capture started, those that arrive
    between the click on "Stop Recording" and the stop event included:
    what was buffered before the start is dropped, empty chunks add
    nothing, and the buffer is empty again after the stop event. *)
Theorem take_audio_is_the_chunks
  (st : State) (r : RecorderId) (t0 now1 now2 now3 : Z) (u : string)
  (datas late : list Blob) (c : Capture) :
  recordingSupported st = true -> isRecording st = false ->
  let started := fst (toggleRecording (Started r t0) st) in
  let fed := fold_left (fun s b => recorder_ondataavailable b s) datas started in
  let stopping := fst (toggleRecording c fed) in
  let flushed := fold_left (fun s b => recorder_ondataavailable b s) late
                   stopping in
  snd (recorder_onstop now1 now2 now3 u flushed)
  = [CreateObjectURL (List.concat (datas ++ late)) u]
  /\ audioChunksRef (fst (recorder_onstop now1 now2 now3 u flushed)) = [].
Proof.
  intros Hsup Hidle. cbv zeta.
  assert (S1 : fst (toggleRecording (Started r t0) st)
               = setIsRecording true
                   (set_recordStartRef (Some t0)
                      (set_audioChunksRef [] (set_recorderRef (Some r) st)))).
  { unfold toggleRecording. rewrite Hsup, Hidle. reflexivity. }
  rewrite S1. set (started := setIsRecording true _).
  destruct (ondataavailable_many datas started) as (_ & B & _ & _ & E).
  pose proof (ondataavailable_buffer datas started) as K.
  cbv zeta in B, E. set (fed := fold_left _ datas started) in *.
  assert (S2 : audioChunksRef (fst (toggleRecording c fed))
               = kept_chunks datas).
  { unfold toggleRecording. rewrite E, B. subst started. cbn.
    rewrite Hsup. cbn. exact K. }
  split; [| reflexivity].
  unfold recorder_onstop. cbn [snd].
  rewrite ondataavailable_buffer, S2, concat_app, !concat_kept_chunks.
  now rewrite <- concat_app.
Qed.

Lemma take_audio_is_the_chunks_witness :
  let st := set_audioChunksRef [[9%N]] (initialState [] true true) in
  recordingSupported st = true /\ isRecording st = false
  /\ snd (recorder_onstop 30 30 30 "blob:a"
            (fold_left (fun s b => recorder_ondataavailable b s)
               [[4%N]]
               (fst (toggleRecording (Started 1%N 0)
                       (fold_left (fun s b => recorder_ondataavailable b s)
                          [[1%N; 2%N]; []; [3%N]]
                          (fst (toggleRecording (Started 1%N 10) st)))))))
     = [CreateObjectURL [1%N; 2%N; 3%N; 4%N] "blob:a"].
Proof.
  cbv zeta. split; [reflexivity | split; [reflexivity |]].
  apply (take_audio_is_the_chunks
           (set_audioChunksRef [[9%N]] (initialState [] true true))
           1%N 10 30 30 30 "blob:a" [[1%N; 2%N]; []; [3%N]] [[4%N]]
           (Started 1%N 0)); reflexivity.
Defined.

(** However the start of a capture fails (microphone refused, recorder
    not constructed, [start] throwing), the handler reports one error on
    the console, the recording flag stays false, and neither the list of
    Recordings nor the start time changes; when [start] throws, the
    recorder reference and the buffer have already been replaced.  The
    next attempt that succeeds starts the capture. *)
Theorem failed_start_keeps_idle (st : State) (c : Capture) :
  recordingSupported st = true -> isRecording st = false ->
  (forall r now, c <> Started r now) ->
  let st' := fst (toggleRecording c st) in
  isRecording st' = false
  /\ recordings st' = recordings st
  /\ recordStartRef st' = recordStartRef st
  /\ (exists err,
        snd (toggleRecording c st)
        = [ConsoleError "Unable to access microphone" err])
  /\ (forall r err, c = StartThrows r err ->
        recorderRef st' = Some r /\ audioChunksRef st' = [])
  /\ (forall r now,
        isRecording (fst (toggleRecording (Started r now) st')) = true).
Proof.
  intros Hsup Hidle Hc. cbv zeta.
  assert (R : forall st1 r now,
             recordingSupported st1 = true -> isRecording st1 = false ->
             isRecording (fst (toggleRecording (Started r now) st1)) = true).
  { intros st1 r now A B. unfold toggleRecording. now rewrite A, B. }
  destruct c as [err | err | r err | r now];
    [| | | exfalso; now apply (Hc r now)].
  - assert (T : toggleRecording (GetUserMediaRejected err) st
                = (st, [ConsoleError "Unable to access microphone" err]))
      by (unfold toggleRecording; now rewrite Hsup, Hidle).
    rewrite T. cbn [fst snd].
    repeat split; try assumption; try (now exists err); try discriminate.
    intros r now. now apply R.
  - assert (T : toggleRecording (MediaRecorderThrows err) st
                = (st, [ConsoleError "Unable to access microphone" err]))
      by (unfold toggleRecording; now rewrite Hsup, Hidle).
    rewrite T. cbn [fst snd].
    repeat split; try assumption; try (now exists err); try discriminate.
    intros r now. now apply R.
  - assert (T : toggleRecording (StartThrows r err) st
                = (set_audioChunksRef [] (set_recorderRef (Some r) st),
                   [ConsoleError "Unable to access microphone" err]))
      by (unfold toggleRecording; now rewrite Hsup, Hidle).
    rewrite T. cbn [fst snd].
    split; [exact Hidle |]. split; [reflexivity |]. split; [reflexivity |].
    split; [now exists err |]. split.
    + intros r' err' [= -> ->]. now split.
    + intros r' now. apply R; assumption.
Qed.

Lemma failed_start_keeps_idle_witness :
  let st := initialState [] true true in
  recordingSupported st = true /\ isRecording st = false
  /\ (forall r now, StartThrows 4%N "InvalidStateError" <> Started r now)
  /\ isRecording (fst (toggleRecording (StartThrows 4%N "InvalidStateError") st))
     = false.
Proof.
  cbv zeta.
  assert (D : forall r now, StartThrows 4%N "InvalidStateError" <> Started r now)
    by (intros r now; discriminate).
  split; [reflexivity | split; [reflexivity | split; [exact D |]]].
  apply (failed_start_keeps_idle (initialState [] true true)
           (StartThrows 4%N "InvalidStateError") eq_refl eq_refl D).
Defined.

Lemma find_split {A : Type} (f : A -> bool) (l : list A) (r : A) :
  find f l = Some r ->
  exists pre post,
    l = pre ++ r :: post /\ f r = true /\ forall x, In x pre -> f x = false.
Proof.
  induction l as [| a l IH]; cbn; [discriminate |].
  destruct (f a) eqn:Fa.
  - intros [= ->]. exists [], l. repeat split; [exact Fa | intros x []].
  - intros H. destruct (IH H) as (pre & post & -> & Fr & Hpre).
    exists (a :: pre), post. repeat split; [exact Fr |].
    intros x [<- | Hx]; [exact Fa | now apply Hpre].
Qed.

Lemma occurrences_after_delete (i : string) (l : list Recording) :
  occurrences i (filter (fun item => negb (String.eqb (id item) i)) l) = 0%nat.
Proof.
  induction l as [| r l IH]; [reflexivity |].
  cbn [filter]. destruct (String.eqb (id r) i) eqn:E; cbn [negb]; [exact IH |].
  rewrite occurrences_cons, E. exact IH.
Qed.

(** The handler on its own: once an identifier has been deleted, the
    same call again returns the state as it is, and its updater revokes
    nothing. *)
Lemma deleteRecording_again (i : string) (st : State) :
  deleteRecording i (fst (deleteRecording i st))
  = (fst (deleteRecording i st), []).
Proof.
  unfold deleteRecording at 1. unfold deleteRecording_updater.
  cbn [fst snd].
  assert (O : occurrences i (recordings (fst (deleteRecording i st))) = 0%nat)
    by apply occurrences_after_delete.
  destruct (absent_find_filter i _ O) as [F K].
  rewrite F. f_equal. apply setRecordings_same. exact K.
Qed.

(** [downloadRecording] does nothing for an identifier that is not in
    the list, and so after that identifier was deleted.  Otherwise it
    saves the URL of the first entry with the identifier under the name
    [voiceover-<id>.webm]. *)
Theorem downloadRecording_first_match (i : string) (st : State) :
  (downloadRecording i st = None <-> ~ In i (map id (recordings st)))
  /\ (forall d, downloadRecording i st = Some d ->
        download d = ("voiceover-" ++ i ++ ".webm")%string
        /\ exists pre r post,
             recordings st = pre ++ r :: post /\ id r = i
             /\ ~ In i (map id pre) /\ href d = url r)
  /\ downloadRecording i (fst (deleteRecording i st)) = None.
Proof.
  unfold downloadRecording. split; [| split].
  - rewrite <- occurrences_zero_not_In.
    destruct (find _ (recordings st)) as [r |] eqn:F.
    + split; [discriminate |]. intros O.
      destruct (absent_find_filter i _ O) as [F' _]. congruence.
    + split; [intros _ | reflexivity].
      destruct (occurrences i (recordings st)) eqn:O; [reflexivity | exfalso].
      unfold occurrences in O.
      destruct (filter _ (recordings st)) as [| y ys] eqn:G; [discriminate |].
      assert (Hy : In y (filter (fun item => String.eqb (id item) i)
                                (recordings st))) by (rewrite G; now left).
      apply filter_In in Hy.
      now rewrite (find_none _ _ F y (proj1 Hy)) in Hy.
  - intros d. destruct (find _ (recordings st)) as [r |] eqn:F;
      [| discriminate].
    intros [= <-]. split; [reflexivity |].
    destruct (find_split _ _ _ F) as (pre & post & E & Hr & Hpre).
    exists pre, r, post. apply String.eqb_eq in Hr.
    repeat split; try assumption.
    intros Hin. apply in_map_iff in Hin. destruct Hin as (x & Hx & Hin).
    specialize (Hpre x Hin). apply String.eqb_neq in Hpre. contradiction.
  - destruct (absent_find_filter i _
                (occurrences_after_delete i (recordings st))) as [F _].
    unfold deleteRecording, deleteRecording_updater.
    cbn [fst recordings setRecordings]. now rewrite F.
Qed.

Lemma downloadRecording_first_match_witness :
  let st := setRecordings
              (fun _ => [mkRecording "7" "blob:a" 7 10;
                         mkRecording "7" "blob:b" 7 20])
              (initialState [] true true) in
  downloadRecording "7" st = Some (mkDownload "blob:a" "voiceover-7.webm")
  /\ download (mkDownload "blob:a" "voiceover-7.webm")
     = "voiceover-7.webm"%string.
Proof.
  cbv zeta.
  assert (H : downloadRecording "7"
                (setRecordings
                   (fun _ => [mkRecording "7" "blob:a" 7 10;
                              mkRecording "7" "blob:b" 7 20])
                   (initialState [] true true))
              = Some (mkDownload "blob:a" "voiceover-7.webm"))
    by reflexivity.
  split; [exact H |].
  exact (proj1 (proj1 (proj2 (downloadRecording_first_match "7"
                        (setRecordings
                           (fun _ => [mkRecording "7" "blob:a" 7 10;
                                      mkRecording "7" "blob:b" 7 20])
                           (initialState [] true true)))) _ H)).
Defined.

Lemma string_length_append (a b : string) :
  String.length (a ++ b) = (String.length a + String.length b)%nat.
Proof. induction a as [| x a IH]; cbn; [reflexivity | now rewrite IH]. Qed.

Lemma append_cancel_r (a b s : string) :
  (a ++ s)%string = (b ++ s)%string -> a = b.
Proof.
  revert b. induction a as [| x a IH]; intros [| y b] H.
  - reflexivity.
  - exfalso. apply (f_equal String.length) in H.
    cbn in H. rewrite string_length_append in H. lia.
  - exfalso. apply (f_equal String.length) in H.
    cbn in H. rewrite string_length_append in H. lia.
  - cbn in H. injection H as -> H. f_equal. now apply IH.
Qed.

(** Two downloads get the same file name only for the same identifier. *)
Theorem download_names_differ (i j : string) (st st' : State)
  (d d' : Download) :
  downloadRecording i st = Some d -> downloadRecording j st' = Some d' ->
  download d = download d' -> i = j.
Proof.
  unfold downloadRecording.
  destruct (find _ (recordings st)); [| discriminate].
  destruct (find _ (recordings st')); [| discriminate].
  intros [= <-] [= <-]. cbn [download append]. intros [= H].
  exact (append_cancel_r _ _ _ H).
Qed.

Lemma download_names_differ_witness :
  let st := setRecordings
              (fun _ => [mkRecording "7" "blob:a" 7 10;
                         mkRecording "8" "blob:b" 8 10])
              (initialState [] true true) in
  downloadRecording "7" st
  = Some (mkDownload "blob:a" "voiceover-7.webm")
  /\ "7"%string = "7"%string.
Proof.
  cbv zeta. split; [reflexivity |].
  apply (download_names_differ "7" "7"
           (setRecordings
              (fun _ => [mkRecording "7" "blob:a" 7 10;
                         mkRecording "8" "blob:b" 8 10])
              (initialState [] true true))
           (setRecordings
              (fun _ => [mkRecording "7" "blob:a" 7 10;
                         mkRecording "8" "blob:b" 8 10])
              (initialState [] true true))
           (mkDownload "blob:a" "voiceover-7.webm")
           (mkDownload "blob:a" "voiceover-7.webm")); reflexivity.
Defined.

End MoreBooth.

(* ================================================================== *)
(** ** Further properties: object URLs and recorders along a trace     *)
(* ================================================================== *)

Section MoreTraces.
Import JS Studio React Described Rest Ledger.

Lemma apply_calls_ledger (cs : list Call) (p : Platform) :
  created (apply_calls cs p) = created p ++ created_of cs
  /\ revoked (apply_calls cs p) = revoked p ++ revoked_of cs
  /\ recorderCalls (apply_calls cs p)
     = recorderCalls p ++ filter recorder_call cs.
Proof.
  revert p. induction cs as [| c cs IH]; intros p.
  - cbn. now rewrite !app_nil_r.
  - unfold apply_calls in *. cbn [fold_left].
    destruct (IH (apply_call c p)) as (A & B & C). rewrite A, B, C.
    destruct c; cbn; rewrite <- ?app_assoc; repeat split; reflexivity.
Qed.

Lemma effect_cleanup_ledger (recs : list Recording) :
  created_of (effect_cleanup recs) = []
  /\ revoked_of (effect_cleanup recs) = map url recs
  /\ filter recorder_call (effect_cleanup recs) = [].
Proof.
  unfold effect_cleanup, created_of, revoked_of. cbn [flat_map filter app].
  induction recs as [| r recs (A & B & C)]; [now repeat split |].
  cbn. rewrite A, B. repeat split. exact C.
Qed.

Lemma toggleRecording_ledger (c : Capture) (st : State) :
  created_of (snd (toggleRecording c st)) = []
  /\ revoked_of (snd (toggleRecording c st)) = [].
Proof.
  unfold toggleRecording.
  destruct (recordingSupported st); [| now split].
  destruct (isRecording st); cbn [negb].
  - destruct (recorderRef st); now split.
  - destruct c; now split.
Qed.

Lemma speak_ledger (st : State) :
  created_of (snd (speak st)) = [] /\ revoked_of (snd (speak st)) = []
  /\ filter recorder_call (snd (speak st)) = []
  /\ fst (speak st) = st.
Proof.
  destruct (speak_cases st) as [(_ & _ & u & _ & E) | (_ & E)];
    rewrite E; now repeat split.
Qed.

(** What one event adds to the two logs of object URLs, and what it
    does to the list of Recordings. *)
Lemma step_ledger (e : Event) (w : World) :
  mounted w = true ->
  created (platform (step e w))
  = created (platform w)
    ++ match e with RecorderStopped _ _ _ u => [u] | _ => [] end
  /\ revoked (platform (step e w))
     = revoked (platform w)
       ++ match e with
          | RecorderStopped _ _ _ _ | Unmount => map url (captured w)
          | ClickDelete i =>
              revoked_of (snd (deleteRecording i (comp w)))
              ++ map url (captured w)
          | _ => []
          end.
Proof.
  intros M. unfold step. rewrite M. cbn [negb].
  destruct e; unfold commit, commit_recordings; cbn [platform fst snd];
    try (cbn; now rewrite !app_nil_r).
  - destruct (apply_calls_ledger (snd (speak (comp w))) (platform w))
      as (A & B & _).
    destruct (speak_ledger (comp w)) as (C & D & _).
    now rewrite A, B, C, D.
  - destruct (apply_calls_ledger (snd (toggleRecording c (comp w)))
                (platform w)) as (A & B & _).
    destruct (toggleRecording_ledger c (comp w)) as (C & D).
    now rewrite A, B, C, D.
  - destruct (apply_calls_ledger
                ([CreateObjectURL (List.concat (audioChunksRef (comp w))) u]
                 ++ effect_cleanup (captured w)) (platform w)) as (A & B & _).
    destruct (effect_cleanup_ledger (captured w)) as (C & D & _).
    unfold recorder_onstop. cbn [snd]. rewrite A, B.
    unfold created_of, revoked_of in *. rewrite !flat_map_app, C, D.
    now split.
  - destruct (apply_calls_ledger
                (snd (deleteRecording i (comp w))
                 ++ effect_cleanup (captured w)) (platform w)) as (A & B & _).
    destruct (effect_cleanup_ledger (captured w)) as (C & D & _).
    rewrite A, B. unfold created_of, revoked_of in *.
    rewrite !flat_map_app, C, D. split; [| reflexivity].
    unfold deleteRecording, deleteRecording_updater. cbn [snd].
    destruct (find _ (recordings (comp w))); reflexivity.
  - destruct (apply_calls_ledger (effect_cleanup (captured w)) (platform w))
      as (A & B & _).
    destruct (effect_cleanup_ledger (captured w)) as (C & D & _).
    now rewrite A, B, C, D.
Qed.

(** The cleanup function always holds the list that is displayed. *)
Lemma step_captured (e : Event) (w : World) :
  captured w = recordings (comp w) ->
  captured (step e w) = recordings (comp (step e w)).
Proof.
  intros K. unfold step. destruct (mounted w); cbn [negb]; [| exact K].
  destruct e; unfold commit, commit_recordings;
    cbn [captured comp fst]; try exact K; try reflexivity.
  - now rewrite (proj2 (proj2 (proj2 (speak_ledger (comp w))))).
  - now rewrite toggleRecording_recordings.
  - unfold recorder_ondataavailable.
    now destruct (0 <? List.length data)%nat.
Qed.

Lemma run_captured (es : list Event) (w : World) :
  captured w = recordings (comp w) ->
  captured (run es w) = recordings (comp (run es w)).
Proof.
  revert w. induction es as [| e es IH]; intros w K; [exact K |].
  change (run (e :: es) w) with (run es (step e w)).
  apply IH. now apply step_captured.
Qed.

(** Adding a take revokes the URL of every take already listed, and
    leaves those takes in the list with their revoked URLs. *)
Theorem new_take_revokes_listed_urls
  (es : list Event) (script0 : jsstring) (speechOk recordingOk : bool)
  (now1 now2 now3 : Z) (u : string) (r : Recording) :
  let w := run es (initialWorld script0 speechOk recordingOk) in
  mounted w = true -> In r (recordings (comp w)) ->
  let w' := step (RecorderStopped now1 now2 now3 u) w in
  In r (recordings (comp w'))
  /\ (released (url r) w < released (url r) w')%nat.
Proof.
  cbv zeta. intros M Hin.
  set (w := run es (initialWorld script0 speechOk recordingOk)) in *.
  assert (K : captured w = recordings (comp w))
    by (apply run_captured; reflexivity).
  destruct (step_ledger (RecorderStopped now1 now2 now3 u) w M) as [_ R].
  unfold released. rewrite R, count_occ_app, K. split.
  - unfold step. rewrite M. cbn. now right.
  - assert (0 < count_occ string_dec (map url (recordings (comp w))) (url r))%nat;
      [| lia].
    apply count_occ_In. now apply in_map.
Qed.

Lemma new_take_revokes_listed_urls_witness :
  let es := [ClickRecord (Started 1%N 10); ClickRecord (Started 1%N 10);
             RecorderStopped 30 30 30 "blob:a"] in
  let w := run es (initialWorld [] true true) in
  let r := mkRecording "30" "blob:a" 30 20 in
  mounted w = true /\ In r (recordings (comp w))
  /\ (released (url r) w
      < released (url r) (step (RecorderStopped 60 60 60 "blob:b") w))%nat.
Proof.
  cbv zeta.
  assert (M : mounted (run [ClickRecord (Started 1%N 10);
                            ClickRecord (Started 1%N 10);
                            RecorderStopped 30 30 30 "blob:a"]
                           (initialWorld [] true true)) = true)
    by reflexivity.
  assert (I : In (mkRecording "30" "blob:a" 30 20)
                (recordings (comp (run [ClickRecord (Started 1%N 10);
                                        ClickRecord (Started 1%N 10);
                                        RecorderStopped 30 30 30 "blob:a"]
                                       (initialWorld [] true true)))))
    by (left; reflexivity).
  split; [exact M | split; [exact I |]].
  apply (new_take_revokes_listed_urls
           [ClickRecord (Started 1%N 10); ClickRecord (Started 1%N 10);
            RecorderStopped 30 30 30 "blob:a"]
           [] true true 60 60 60 "blob:b"
           (mkRecording "30" "blob:a" 30 20) M I).
Defined.

(** Deleting a listed take revokes its URL twice (in the updater and in
    the cleanup of the effect), and revokes once the URL of every take
    that stays in the list. *)
Theorem delete_revokes_twice
  (es : list Event) (script0 : jsstring) (speechOk recordingOk : bool)
  (i : string) (r : Recording) :
  let w := run es (initialWorld script0 speechOk recordingOk) in
  mounted w = true ->
  find (fun item => String.eqb (id item) i) (recordings (comp w)) = Some r ->
  let w' := step (ClickDelete i) w in
  (released (url r) w + 2 <= released (url r) w')%nat
  /\ (forall k, In k (recordings (comp w')) ->
        In k (recordings (comp w))
        /\ (released (url k) w < released (url k) w')%nat).
Proof.
  cbv zeta. intros M F.
  set (w := run es (initialWorld script0 speechOk recordingOk)) in *.
  assert (K : captured w = recordings (comp w))
    by (apply run_captured; reflexivity).
  clearbody w.
  destruct (step_ledger (ClickDelete i) w M) as [_ R].
  unfold released. rewrite R, !count_occ_app, K.
  assert (P : forall k, In k (recordings (comp w)) ->
              (0 < count_occ string_dec (map url (recordings (comp w)))
                     (url k))%nat)
    by (intros k Hk; apply count_occ_In; now apply in_map).
  split.
  - unfold deleteRecording, deleteRecording_updater. cbn [snd]. rewrite F.
    cbn [revoked_of flat_map app count_occ].
    destruct (string_dec (url r) (url r)); [| congruence].
    pose proof (P r (proj1 (find_some _ _ F))) as H. clear - H. lia.
  - intros k Hk.
    assert (Hk' : In k (recordings (comp w))).
    { unfold step in Hk. rewrite M in Hk.
      cbn [negb commit_recordings comp fst deleteRecording recordings
           setRecordings deleteRecording_updater] in Hk.
      apply filter_In in Hk. exact (proj1 Hk). }
    split; [exact Hk' |]. rewrite !count_occ_app.
    pose proof (P k Hk') as H. clear - H. lia.
Qed.

Lemma delete_revokes_twice_witness :
  let es := [ClickRecord (Started 1%N 10); ClickRecord (Started 1%N 10);
             RecorderStopped 30 30 30 "blob:a"] in
  let w := run es (initialWorld [] true true) in
  let r := mkRecording "30" "blob:a" 30 20 in
  mounted w = true
  /\ find (fun item => String.eqb (id item) "30") (recordings (comp w)) = Some r
  /\ (released (url r) w + 2 <= released (url r) (step (ClickDelete "30") w))%nat.
Proof.
  cbv zeta.
  split; [reflexivity | split; [reflexivity |]].
  apply (delete_revokes_twice
           [ClickRecord (Started 1%N 10); ClickRecord (Started 1%N 10);
            RecorderStopped 30 30 30 "blob:a"]
           [] true true "30" (mkRecording "30" "blob:a" 30 20));
    reflexivity.
Defined.

(** The list of Recordings after one event. *)
Lemma step_recordings (e : Event) (w : World) :
  mounted w = true ->
  recordings (comp (step e w))
  = match e with
    | RecorderStopped now1 now2 now3 u =>
        mkRecording (Number_toString now2) u now3
          (durationSince (recordStartRef (comp w)) now1)
        :: recordings (comp w)
    | ClickDelete i =>
        filter (fun item => negb (String.eqb (id item) i)) (recordings (comp w))
    | _ => recordings (comp w)
    end.
Proof.
  intros M. unfold step. rewrite M. cbn [negb].
  destruct e; unfold commit, commit_recordings; cbn [comp fst];
    try reflexivity.
  - now rewrite (proj2 (proj2 (proj2 (speak_ledger (comp w))))).
  - apply toggleRecording_recordings.
  - unfold recorder_ondataavailable.
    now destruct (0 <? List.length data)%nat.
Qed.

(** Every URL created so far is the URL of a listed take or has been
    revoked. *)
Lemma step_accounted (e : Event) (w : World) :
  captured w = recordings (comp w) ->
  (forall u, In u (created (platform w)) ->
     In u (map url (recordings (comp w))) \/ In u (revoked (platform w))) ->
  forall u, In u (created (platform (step e w))) ->
    In u (map url (recordings (comp (step e w))))
    \/ In u (revoked (platform (step e w))).
Proof.
  intros K A u. destruct (mounted w) eqn:M.
  - destruct (step_ledger e w M) as [C R].
    rewrite C, R, (step_recordings e w M), K.
    intros Hu. apply in_app_or in Hu.
    destruct e;
      try (destruct Hu as [Hu | []]; destruct (A u Hu) as [H | H];
           [left; exact H | right; apply in_or_app; now left]).
    + destruct Hu as [Hu | [<- | []]]; [| left; now left].
      destruct (A u Hu) as [H | H]; [left; now right |].
      right. apply in_or_app. now left.
    + destruct Hu as [Hu | []]. right. apply in_or_app.
      destruct (A u Hu) as [H | H]; [right | now left].
      apply in_or_app. now right.
  - unfold step. rewrite M. cbn [negb]. apply A.
Qed.

Lemma run_accounted (es : list Event) (w : World) :
  captured w = recordings (comp w) ->
  (forall u, In u (created (platform w)) ->
     In u (map url (recordings (comp w))) \/ In u (revoked (platform w))) ->
  forall u, In u (created (platform (run es w))) ->
    In u (map url (recordings (comp (run es w))))
    \/ In u (revoked (platform (run es w))).
Proof.
  revert w. induction es as [| e es IH]; intros w K A; [exact A |].
  change (run (e :: es) w) with (run es (step e w)).
  apply IH; [now apply step_captured | now apply step_accounted].
Qed.

(** No object URL outlives the view: when the view is torn down, every
    URL created since it was mounted has been revoked at least once. *)
Theorem teardown_revokes_every_url
  (es : list Event) (script0 : jsstring) (speechOk recordingOk : bool) :
  let w := run es (initialWorld script0 speechOk recordingOk) in
  mounted w = true ->
  forall u, In u (created (platform (step Unmount w))) ->
    In u (revoked (platform (step Unmount w))).
Proof.
  cbv zeta. intros M u Hu.
  set (w := run es (initialWorld script0 speechOk recordingOk)) in *.
  assert (K : captured w = recordings (comp w))
    by (apply run_captured; reflexivity).
  assert (A : forall u, In u (created (platform w)) ->
              In u (map url (recordings (comp w)))
              \/ In u (revoked (platform w))).
  { apply run_accounted; [reflexivity | intros x []]. }
  destruct (step_ledger Unmount w M) as [C R].
  rewrite C, app_nil_r in Hu. rewrite R, K. apply in_or_app.
  destruct (A u Hu); [now right | now left].
Qed.

Lemma teardown_revokes_every_url_witness :
  let es := [ClickRecord (Started 1%N 10); ClickRecord (Started 1%N 10);
             RecorderStopped 30 30 30 "blob:a"] in
  let w := run es (initialWorld [] true true) in
  mounted w = true
  /\ In "blob:a"%string (created (platform (step Unmount w)))
  /\ In "blob:a"%string (revoked (platform (step Unmount w))).
Proof.
  cbv zeta.
  assert (I : In "blob:a"%string
                (created (platform
                   (step Unmount
                      (run [ClickRecord (Started 1%N 10);
                            ClickRecord (Started 1%N 10);
                            RecorderStopped 30 30 30 "blob:a"]
                           (initialWorld [] true true))))))
    by (left; reflexivity).
  split; [reflexivity | split; [exact I |]].
  apply (teardown_revokes_every_url
           [ClickRecord (Started 1%N 10); ClickRecord (Started 1%N 10);
            RecorderStopped 30 30 30 "blob:a"] [] true true eq_refl
           "blob:a" I).
Defined.

(** While the recording flag is up, recording is supported and a
    recorder is at hand. *)
Lemma step_recorder_at_hand (e : Event) (w : World) :
  (isRecording (comp w) = true ->
   recordingSupported (comp w) = true /\ recorderRef (comp w) <> None) ->
  isRecording (comp (step e w)) = true ->
  recordingSupported (comp (step e w)) = true
  /\ recorderRef (comp (step e w)) <> None.
Proof.
  intros P. unfold step. destruct (mounted w); cbn [negb]; [| exact P].
  destruct e; unfold commit, commit_recordings; cbn [comp fst];
    try exact P.
  - now rewrite (proj2 (proj2 (proj2 (speak_ledger (comp w))))).
  - unfold toggleRecording.
    remember (recordingSupported (comp w)) as sup eqn:S in |- *.
    destruct sup; cbn [negb fst]; [| exact P].
    remember (isRecording (comp w)) as rec eqn:R in |- *.
    destruct rec; cbn [negb fst]; [cbn; discriminate |].
    destruct c; cbn; try (rewrite <- R; discriminate).
    intros _. split; [now symmetry | discriminate].
  - unfold recorder_ondataavailable.
    destruct (0 <? List.length data)%nat; exact P.
Qed.

(** Whenever the recording flag is up, the next click on the record
    button stops a recorder and its tracks, whatever went on before. *)
Theorem recording_can_be_stopped
  (es : list Event) (script0 : jsstring) (speechOk recordingOk : bool)
  (c : Capture) :
  let w := run es (initialWorld script0 speechOk recordingOk) in
  isRecording (comp w) = true ->
  exists r,
    recorderRef (comp w) = Some r
    /\ toggleRecording c (comp w)
       = (setIsRecording false (comp w), [RecorderStop r; TracksStop r]).
Proof.
  cbv zeta. intros R.
  assert (G : forall es w,
             (isRecording (comp w) = true ->
              recordingSupported (comp w) = true
              /\ recorderRef (comp w) <> None) ->
             isRecording (comp (run es w)) = true ->
             recordingSupported (comp (run es w)) = true
             /\ recorderRef (comp (run es w)) <> None).
  { clear. induction es as [| e es IH]; intros w P; [exact P |].
    change (run (e :: es) w) with (run es (step e w)).
    apply IH. now apply step_recorder_at_hand. }
  destruct (G es (initialWorld script0 speechOk recordingOk)
              ltac:(cbn; discriminate) R) as [S N].
  destruct (recorderRef (comp (run es _))) as [r |] eqn:Rr; [| congruence].
  exists r. split; [reflexivity |].
  unfold toggleRecording. now rewrite S, R, Rr.
Qed.

Lemma recording_can_be_stopped_witness :
  let w := run [ClickRecord (Started 5%N 10)] (initialWorld [] true true) in
  isRecording (comp w) = true
  /\ exists r,
       recorderRef (comp w) = Some r
       /\ toggleRecording (Started 6%N 20) (comp w)
          = (setIsRecording false (comp w), [RecorderStop r; TracksStop r]).
Proof.
  cbv zeta. split; [reflexivity |].
  apply (recording_can_be_stopped [ClickRecord (Started 5%N 10)] [] true true
           (Started 6%N 20)). reflexivity.
Defined.

(** Where audio capture is unsupported, no sequence of events raises
    the recording flag, stores a recorder or calls one. *)
Theorem unsupported_recording_stays_idle
  (es : list Event) (script0 : jsstring) (speechOk : bool) :
  let w := run es (initialWorld script0 speechOk false) in
  isRecording (comp w) = false
  /\ recorderRef (comp w) = None
  /\ recorderCalls (platform w) = [].
Proof.
  cbv zeta.
  assert (G : forall es w,
             recordingSupported (comp w) = false ->
             isRecording (comp w) = false /\ recorderRef (comp w) = None
             /\ recorderCalls (platform w) = [] ->
             isRecording (comp (run es w)) = false
             /\ recorderRef (comp (run es w)) = None
             /\ recorderCalls (platform (run es w)) = []).
  { clear. induction es as [| e es IH]; intros w S Q; [exact Q |].
    change (run (e :: es) w) with (run es (step e w)). apply IH.
    - now rewrite (proj2 (step_capabilities e w)).
    - destruct Q as (A & B & C).
      unfold step. destruct (mounted w); cbn [negb]; [| now repeat split].
      destruct e; unfold commit, commit_recordings;
        cbn [comp platform fst snd];
        rewrite ?(proj2 (proj2 (apply_calls_ledger _ _))), ?C;
        try (cbn; rewrite ?C; now repeat split).
      + destruct (speak_ledger (comp w)) as (_ & _ & F & E).
        rewrite F, E. now repeat split.
      + unfold toggleRecording. rewrite S. cbn. now repeat split.
      + unfold recorder_ondataavailable.
        destruct (0 <? List.length data)%nat; now repeat split.
      + rewrite filter_app, (proj2 (proj2 (effect_cleanup_ledger _))).
        cbn. now repeat split.
      + rewrite filter_app, (proj2 (proj2 (effect_cleanup_ledger _))).
        unfold deleteRecording, deleteRecording_updater. cbn [fst snd].
        destruct (find _ (recordings (comp w))); cbn; now repeat split.
      + rewrite (proj2 (proj2 (effect_cleanup_ledger _))).
        now repeat split. }
  apply G; [reflexivity | now repeat split].
Qed.

End MoreTraces.

(* ================================================================== *)
(** ** Deleting and stopping in the running view                       *)
(* ================================================================== *)

Section DeleteAndStop.
Import JS Studio React Described Rest Ledger Paths.

(** A click on "Delete" in a mounted view: the state is the handler's,
    the view stays mounted, and the cleanup closes over the new list. *)
Lemma step_delete (i : string) (w : World) :
  mounted w = true ->
  comp (step (ClickDelete i) w) = fst (deleteRecording i (comp w))
  /\ mounted (step (ClickDelete i) w) = true
  /\ captured (step (ClickDelete i) w)
     = recordings (comp (step (ClickDelete i) w)).
Proof.
  intros M. unfold step. rewrite M. cbn [negb].
  unfold commit_recordings. cbn [comp mounted captured]. now rewrite M.
Qed.

(** The URL of the entry that [find] returns is revoked by the click. *)
Lemma delete_revokes_found (i : string) (w : World) (r : Recording) :
  mounted w = true ->
  find (fun item => String.eqb (id item) i) (recordings (comp w)) = Some r ->
  snd (deleteRecording i (comp w)) = [RevokeObjectURL (url r)]
  /\ (released (url r) w < released (url r) (step (ClickDelete i) w))%nat.
Proof.
  intros M F.
  assert (C : snd (deleteRecording i (comp w)) = [RevokeObjectURL (url r)]).
  { unfold deleteRecording, deleteRecording_updater. cbn [snd].
    now rewrite F. }
  split; [exact C |].
  destruct (step_ledger (ClickDelete i) w M) as [_ R].
  unfold released. rewrite R, C, !count_occ_app.
  cbn [revoked_of flat_map app count_occ].
  destruct (string_dec (url r) (url r)) as [_ | N]; [| congruence].
  generalize (count_occ string_dec (revoked (platform w)) (url r)).
  generalize (count_occ string_dec (map url (captured w)) (url r)).
  intros n m. lia.
Qed.

Lemma absent_before (i : string) (pre : list Recording) :
  ~ In i (map id pre) ->
  forall x, In x pre -> String.eqb (id x) i = false.
Proof.
  intros H x Hx. apply String.eqb_neq. intros E. apply H.
  rewrite <- E. now apply in_map.
Qed.

(** Claim C4, as amended.  In a mounted view a click on "Delete" for
    the identifier [i] keeps exactly the entries whose identifier
    differs from [i], in their order.  If no entry has identifier [i],
    the state of the component is unchanged and the updater makes no
    call.  On any list the updater revokes the URL of the first entry
    with identifier [i], and of no other, so that URL has been revoked
    once more after the click.  If the identifiers of the list are
    pairwise distinct and one entry has identifier [i], exactly that
    entry is removed and its URL is revoked. *)
Theorem deleteRecording_effect (w : World) (i : string) :
  mounted w = true ->
  let st := comp w in
  let w' := step (ClickDelete i) w in
  let calls := snd (deleteRecording i st) in
  comp w' = fst (deleteRecording i st)
  /\ recordings (comp w')
     = filter (fun item => negb (String.eqb (id item) i)) (recordings st)
  /\ (forall r, In r (recordings (comp w')) <-> In r (recordings st) /\ id r <> i)
  /\ (~ In i (map id (recordings st)) -> comp w' = st /\ calls = [])
  /\ (forall pre r post,
        recordings st = pre ++ r :: post -> id r = i ->
        ~ In i (map id pre) ->
        calls = [RevokeObjectURL (url r)]
        /\ (released (url r) w < released (url r) w')%nat)
  /\ (NoDup (map id (recordings st)) -> In i (map id (recordings st)) ->
      exists l1 r l2,
        recordings st = l1 ++ r :: l2 /\ id r = i
        /\ recordings (comp w') = l1 ++ l2
        /\ calls = [RevokeObjectURL (url r)]
        /\ (released (url r) w < released (url r) w')%nat).
Proof.
  intros M. cbv zeta.
  destruct (step_delete i w M) as (C & _ & _).
  assert (K : recordings (fst (deleteRecording i (comp w)))
              = filter (fun item => negb (String.eqb (id item) i))
                       (recordings (comp w))) by reflexivity.
  rewrite C, K.
  split; [reflexivity |]. split; [reflexivity |]. split; [| split; [| split]].
  - intros r. rewrite filter_In. split; intros [H1 H2]; split; try assumption.
    + intros E. rewrite E, String.eqb_refl in H2. discriminate.
    + apply negb_true_iff. now apply String.eqb_neq.
  - intros H. apply occurrences_zero_not_In in H.
    destruct (absent_find_filter i _ H) as [F G].
    unfold deleteRecording, deleteRecording_updater. cbn [fst snd].
    rewrite F. split; [| reflexivity]. now apply setRecordings_same.
  - intros pre r post E Hr Hpre.
    apply (delete_revokes_found i w r M).
    rewrite E. apply find_first; [now apply absent_before |].
    rewrite Hr. apply String.eqb_refl.
  - intros N H.
    assert (O : occurrences i (recordings (comp w)) = 1%nat).
    { pose proof (NoDup_occurrences i _ N).
      destruct (occurrences i (recordings (comp w))) as [| [| n]] eqn:O;
        try lia.
      apply occurrences_zero_not_In in O. contradiction. }
    destruct (single_find_filter i _ O) as (l1 & r & l2 & E & Hr & F & G).
    destruct (delete_revokes_found i w r M F) as [Cs Rl].
    exists l1, r, l2. now repeat split.
Qed.

Lemma deleteRecording_effect_witness :
  let a := mkRecording "30" "blob:a" 30 20 in
  let b := mkRecording "60" "blob:b" 60 20 in
  let w := mkWorld (setRecordings (fun _ => [b; a]) (initialState [] true true))
             [b; a] (mkPlatform [] 0%N ["blob:a"; "blob:b"]%string [] [] [])
             true in
  mounted w = true
  /\ NoDup (map id (recordings (comp w)))
  /\ In "30"%string (map id (recordings (comp w)))
  /\ exists l1 r l2,
       recordings (comp w) = l1 ++ r :: l2 /\ id r = "30"%string
       /\ recordings (comp (step (ClickDelete "30") w)) = l1 ++ l2
       /\ snd (deleteRecording "30" (comp w)) = [RevokeObjectURL (url r)]
       /\ (released (url r) w < released (url r) (step (ClickDelete "30") w))%nat.
Proof.
  cbv zeta.
  assert (N : NoDup ["60"%string; "30"%string]).
  { constructor.
    - intros [H | []]. discriminate H.
    - constructor; [intros [] | constructor]. }
  assert (I : In "30"%string ["60"%string; "30"%string])
    by (right; left; reflexivity).
  split; [reflexivity | split; [exact N | split; [exact I |]]].
  exact (proj2 (proj2 (proj2 (proj2 (proj2
           (deleteRecording_effect
              (mkWorld
                 (setRecordings
                    (fun _ => [mkRecording "60" "blob:b" 60 20;
                               mkRecording "30" "blob:a" 30 20])
                    (initialState [] true true))
                 [mkRecording "60" "blob:b" 60 20;
                  mkRecording "30" "blob:a" 30 20]
                 (mkPlatform [] 0%N ["blob:a"; "blob:b"]%string [] [] [])
                 true)
              "30" eq_refl))))) N I).
Defined.

(** Claim C4 as stated fails.  On a list in which two entries share the
    identifier, both are removed and the updater revokes only the URL of
    the first, so no single entry accounts for the change.  In the
    running view, deleting the one listed take revokes its URL twice,
    and deleting an identifier that is not listed leaves the list as it
    is but revokes the URL of the take that is listed. *)
Lemma deleteRecording_claim_fails :
  let a := mkRecording "7" "blob:a" 7 10 in
  let b := mkRecording "7" "blob:b" 7 20 in
  let st := mkState [] [] [] (number_of_Z 1) (number_of_Z 1) false false
              [a; b] None None [] true true in
  let w := run [ClickRecord (Started 1%N 10); ClickRecord (Started 1%N 10);
                RecorderStopped 30 30 30 "blob:a"]
               (initialWorld [] true true) in
  (recordings (fst (deleteRecording "7" st)) = []
   /\ snd (deleteRecording "7" st) = [RevokeObjectURL "blob:a"]
   /\ ~ (exists l1 r l2,
           recordings st = l1 ++ r :: l2 /\ id r = "7"%string
           /\ recordings (fst (deleteRecording "7" st)) = l1 ++ l2
           /\ snd (deleteRecording "7" st) = [RevokeObjectURL (url r)]))
  /\ (map id (recordings (comp w)) = ["30"%string]
      /\ released "blob:a" w = 0%nat
      /\ released "blob:a" (step (ClickDelete "30") w) = 2%nat)
  /\ (recordings (comp (step (ClickDelete "31") w)) = recordings (comp w)
      /\ released "blob:a" (step (ClickDelete "31") w) = 1%nat).
Proof.
  cbv zeta. split; [| split].
  - split; [reflexivity | split; [reflexivity |]].
    intros (l1 & r & l2 & E & _ & K & _).
    cbn in K. symmetry in K. apply app_eq_nil in K. destruct K as [-> ->].
    cbn in E. discriminate E.
  - repeat split; vm_compute; reflexivity.
  - repeat split; vm_compute; reflexivity.
Qed.



(** Deleting the same identifier once more leaves the state of the
    component as it is, and the updater revokes nothing; the list is a
    new array all the same, so the cleanup of the effect runs and
    revokes once more the URL of every take that is still listed. *)
Theorem second_delete_revokes_again
  (es : list Event) (script0 : jsstring) (speechOk recordingOk : bool)
  (i : string) :
  let w := run es (initialWorld script0 speechOk recordingOk) in
  mounted w = true ->
  let w1 := step (ClickDelete i) w in
  let w2 := step (ClickDelete i) w1 in
  comp w2 = comp w1
  /\ snd (deleteRecording i (comp w1)) = []
  /\ (forall k, In k (recordings (comp w1)) ->
        (released (url k) w1 < released (url k) w2)%nat).
Proof.
  cbv zeta. intros M.
  set (w := run es (initialWorld script0 speechOk recordingOk)) in *.
  destruct (step_delete i w M) as (C1 & M1 & K1).
  set (w1 := step (ClickDelete i) w) in *. clearbody w1.
  destruct (step_delete i w1 M1) as (C2 & _ & _).
  pose proof (deleteRecording_again i (comp w)) as A.
  rewrite <- C1 in A.
  split; [rewrite C2, A; reflexivity |].
  split; [now rewrite A |].
  intros k Hk.
  destruct (step_ledger (ClickDelete i) w1 M1) as [_ R].
  unfold released. rewrite R, A, K1, !count_occ_app. cbn [snd revoked_of flat_map].
  assert (P : (0 < count_occ string_dec (map url (recordings (comp w1)))
                     (url k))%nat)
    by (apply count_occ_In; now apply in_map).
  clear - P. cbn [count_occ]. lia.
Qed.

Lemma second_delete_revokes_again_witness :
  let es := [ClickRecord (Started 1%N 10); ClickRecord (Started 1%N 10);
             RecorderStopped 30 30 30 "blob:a"] in
  let w := run es (initialWorld [] true true) in
  mounted w = true
  /\ comp (step (ClickDelete "31") (step (ClickDelete "31") w))
     = comp (step (ClickDelete "31") w).
Proof.
  cbv zeta.
  assert (M : mounted (run [ClickRecord (Started 1%N 10);
                            ClickRecord (Started 1%N 10);
                            RecorderStopped 30 30 30 "blob:a"]
                           (initialWorld [] true true)) = true)
    by (vm_compute; reflexivity).
  split; [exact M |].
  exact (proj1 (second_delete_revokes_again
                  [ClickRecord (Started 1%N 10); ClickRecord (Started 1%N 10);
                   RecorderStopped 30 30 30 "blob:a"] [] true true "31" M)).
Defined.

End DeleteAndStop.
